(** * Joy: joystick controller for a DJI Tello (src/joy.py)

    A shallow embedding of [JoystickController]: the command deque, the axis
    state dictionary, the button/axis handlers, the joystick dispatch loop, the
    network sender loop and the shutdown sequence of [run], followed by the
    properties of the command-dispatch subsystem.

    Python objects are modelled as follows.
    - [int] is [Z]; [float] is the kernel's binary64 [float] (the same IEEE 754
      format and rounding as CPython's [float]).
    - [str] is [string] (holding UTF-8), [bytes] is [list byte].
    - [dict] is [gmap string _], a missing key raises [KeyError].
    - [tuple] is [list], an index past the end raises [IndexError].
    - [collections.deque] is a [list] written left to right: [append] adds at
      the right end and [pop] removes from the right end.
    - Exceptions, the mutable fields of [self] and the observable effects
      (stdout, network, sleeping) are threaded by the monad [M]. *)

From Stdlib Require Import ZArith List Lia.
From Stdlib Require Import Strings.String Strings.Ascii Strings.Byte.
From Stdlib Require Import Floats.PrimFloat Floats.SpecFloat Floats.FloatOps.
From Stdlib Require Import Numbers.Cyclic.Int63.Uint63.
From stdpp Require Import base option list strings gmap pretty.

Open Scope Z_scope.

(** ** Exceptions and results *)

Inductive exn : Set :=
  | KeyError | IndexError | TypeError | UnicodeDecodeError
  | ValueError | OverflowError | ZeroDivisionError.

Inductive result (A : Type) : Type :=
  | Ok (a : A)
  | Raise (e : exn).
Arguments Ok {A} a.
Arguments Raise {A} e.

#[global] Instance exn_eq_dec : EqDecision exn.
Proof. solve_decision. Defined.

(** ** Observable effects *)

(** [Sr1 dst dport payload timeout_ms] is one call of [sendrecv.sr1] on
    [IP(dst)/UDP(dport)/payload]; [Sleep ms] is [time.sleep]; [Print] is a
    line on stdout. *)
Inductive effect : Set :=
  | Print (line : string)
  | Sr1 (dst : string) (dport : Z) (payload : string) (timeout_ms : Z)
  | Sleep (ms : Z).

(** ** The controller object *)

(** The fields of [self] that change after [__init__], and the effects
    produced so far (oldest first). *)
Record controller : Type := Controller {
  _running : bool;
  _command_queue : list string;
  _axis_state : gmap string Z;
  effects : list effect
}.

Definition set_running (b : bool) (s : controller) : controller :=
  Controller b (_command_queue s) (_axis_state s) (effects s).
Definition set_command_queue (q : list string) (s : controller) : controller :=
  Controller (_running s) q (_axis_state s) (effects s).
Definition set_axis_state (m : gmap string Z) (s : controller) : controller :=
  Controller (_running s) (_command_queue s) m (effects s).
Definition emit (e : effect) (s : controller) : controller :=
  Controller (_running s) (_command_queue s) (_axis_state s) (effects s ++ [e]).

(** ** The state-and-exception monad

    A raised exception keeps the state reached so far: Python does not roll
    back the mutations made before the [raise]. *)
Definition M (A : Type) : Type := controller → result A * controller.

#[global] Instance M_ret : MRet M := λ A a s, (Ok a, s).
#[global] Instance M_bind : MBind M := λ A B f m s,
  match m s with
  | (Ok a, s') => f a s'
  | (Raise e, s') => (Raise e, s')
  end.

Definition raise {A : Type} (e : exn) : M A := λ s, (Raise e, s).

Definition lift {A : Type} (r : result A) : M A := λ s, (r, s).

(** [try: body except E: handler]. *)
Definition try_except {A : Type} (body : M A) (E : exn) (handler : M A) : M A :=
  λ s, match body s with
       | (Raise e, s') => if decide (e = E) then handler s' else (Raise e, s')
       | r => r
       end.

(** [for x in xs: body x]. *)
Fixpoint for_each {A : Type} (body : A → M unit) (xs : list A) : M unit :=
  match xs with
  | [] => mret tt
  | x :: rest => body x ;; for_each body rest
  end.

Definition print (line : string) : M unit := λ s, (Ok tt, emit (Print line) s).
Definition sleep (ms : Z) : M unit := λ s, (Ok tt, emit (Sleep ms) s).
Definition get_running : M bool := λ s, (Ok (_running s), s).

(** ** Python containers *)

(** [t[i]] on a tuple, for an index that is never negative (SDL reports
    button and axis indices as [Uint8]). *)
Definition tuple_getitem {A : Type} (t : list A) (i : nat) : M A :=
  match t !! i with
  | Some x => mret x
  | None => raise IndexError
  end.

(** [d[k]] on a dict. *)
Definition dict_getitem {A : Type} (d : gmap string A) (k : string) : M A :=
  match d !! k with
  | Some x => mret x
  | None => raise KeyError
  end.

(** [deque.pop()]: remove and return the rightmost element. *)
Definition deque_pop_right {A : Type} (q : list A) : option (A * list A) :=
  match rev q with
  | [] => None
  | x :: r => Some (x, rev r)
  end.

Definition queue_append (cmd : string) : M unit :=
  λ s, (Ok tt, set_command_queue (_command_queue s ++ [cmd]) s).
Definition queue_clear : M unit :=
  λ s, (Ok tt, set_command_queue [] s).
Definition queue_pop : M string :=
  λ s, match deque_pop_right (_command_queue s) with
       | Some (cmd, q) => (Ok cmd, set_command_queue q s)
       | None => (Raise IndexError, s)
       end.

Definition axis_get (k : string) : M Z :=
  λ s, dict_getitem (_axis_state s) k s.
Definition axis_set (k : string) (v : Z) : M unit :=
  λ s, (Ok tt, set_axis_state (<[k := v]> (_axis_state s)) s).

(** ** Python numbers *)

(** [float(n)], exact for [|n| < 2^53] (every integer this program converts
    is below 2^22). *)
Definition float_of_int (n : Z) : float :=
  if n <? 0 then PrimFloat.opp (PrimFloat.of_uint63 (Uint63.of_Z (- n)))
  else PrimFloat.of_uint63 (Uint63.of_Z n).

(** [a / b] on two ints: true division, a correctly rounded binary64. *)
Definition py_truediv (a b : Z) : result float :=
  if b =? 0 then Raise ZeroDivisionError
  else Ok (PrimFloat.div (float_of_int a) (float_of_int b)).

(** [int(x)] on a float: truncation toward zero. *)
Definition py_int (x : float) : result Z :=
  match Prim2SF x with
  | S754_zero _ => Ok 0
  | S754_finite sign m e =>
      let magnitude :=
        if 0 <=? e then Z.shiftl (Z.pos m) e else Z.shiftr (Z.pos m) (- e) in
      Ok (if sign then - magnitude else magnitude)
  | S754_infinity _ => Raise OverflowError
  | S754_nan => Raise ValueError
  end.

(** [int(a / b)]. *)
Definition int_truediv (a b : Z) : result Z :=
  match py_truediv a b with
  | Ok x => py_int x
  | Raise e => Raise e
  end.

(** ** scapy packets and [bytes.decode] *)

(** A packet is its stack of layers; only [Raw] carries data the program
    reads. *)
Inductive layer : Set :=
  | IP | UDP | ICMP
  | Raw (load : list byte).

Definition packet : Set := list layer.

(** [Packet.getlayer(Raw)]: the first [Raw] layer, if any. *)
Fixpoint getlayer_Raw (p : packet) : option (list byte) :=
  match p with
  | [] => None
  | Raw load :: _ => Some load
  | _ :: below => getlayer_Raw below
  end.

(** [answer[Raw].load]: subscripting [None] raises [TypeError]; scapy's
    [Packet.__getitem__] raises [IndexError] when the layer is absent. *)
Definition answer_Raw_load (answer : option packet) : M (list byte) :=
  match answer with
  | None => raise TypeError
  | Some p =>
      match getlayer_Raw p with
      | Some load => mret load
      | None => raise IndexError
      end
  end.

Definition continuation (b : N) : bool := ((128 <=? b) && (b <=? 191))%N.
Definition between (lo b hi : N) : bool := ((lo <=? b) && (b <=? hi))%N.

(** Well-formed UTF-8 (RFC 3629): no overlong forms, no surrogates, nothing
    above U+10FFFF. This is what the strict UTF-8 codec accepts. *)
Fixpoint utf8_valid (bs : list N) : bool :=
  match bs with
  | [] => true
  | b0 :: r0 =>
      if (b0 <=? 127)%N then utf8_valid r0
      else
        match r0 with
        | [] => false
        | b1 :: r1 =>
            if between 194 b0 223 then continuation b1 && utf8_valid r1
            else
              match r1 with
              | [] => false
              | b2 :: r2 =>
                  if (b0 =? 224)%N then
                    between 160 b1 191 && continuation b2 && utf8_valid r2
                  else if between 225 b0 236 || between 238 b0 239 then
                    continuation b1 && continuation b2 && utf8_valid r2
                  else if (b0 =? 237)%N then
                    between 128 b1 159 && continuation b2 && utf8_valid r2
                  else
                    match r2 with
                    | [] => false
                    | b3 :: r3 =>
                        if (b0 =? 240)%N then
                          between 144 b1 191 && continuation b2
                          && continuation b3 && utf8_valid r3
                        else if between 241 b0 243 then
                          continuation b1 && continuation b2
                          && continuation b3 && utf8_valid r3
                        else if (b0 =? 244)%N then
                          between 128 b1 143 && continuation b2
                          && continuation b3 && utf8_valid r3
                        else false
                    end
              end
        end
  end.

(** [load.decode()]: the default codec is strict UTF-8. *)
Definition bytes_decode (load : list byte) : M string :=
  if utf8_valid (map Byte.to_N load) then mret (string_of_list_byte load)
  else raise UnicodeDecodeError.

(** [sendrecv.sr1(IP(dst='192.168.10.1') / UDP(dport=8889) / cmd, verbose=1,
    timeout=0.2)]: the call is recorded; what comes back is up to the
    network, [None] when nothing arrives within the timeout. The progress
    lines scapy itself writes are not part of the trace. *)
Definition sr1 (cmd : string) (answer : option packet) : M (option packet) :=
  λ s, (Ok answer, emit (Sr1 "192.168.10.1" 8889 cmd 200) s).

(** ** Constants of [__init__] *)

Definition _AXIS_DEAD : Z := 2500.
Definition _AXIS_MAX_VAL : Z := 32767.

Definition _button_map : list string :=
  ["A"; "B"; "X"; "Y"; "LB"; "RB"; "SELECT"; "START"; "JL"; "JR"].
Definition _axis_map : list string :=
  ["LEFT_X"; "LEFT_Y"; "LT"; "RIGHT_X"; "RIGHT_Y"; "RT"].

(** The state right after [__init__]; the lines [__init__] prints about the
    joystick are not part of the trace. *)
Definition init : controller :=
  Controller true []
    (<["roll" := 0]> (<["quota" := 0]> (<["yaw" := 0]> (<["pitch" := 0]> ∅))))
    [].

(** ** Button and axis handlers *)

Definition _command : M unit :=
  print "Pressed Command button" ;;
  queue_append "command".

Definition _land (force : bool) : M unit :=
  print "Pressed Land button" ;;
  (if force then queue_clear else mret tt) ;;
  queue_append "land".

Definition _emergency_land : M unit :=
  queue_clear ;;
  queue_append "emergency".

Definition _takeoff : M unit :=
  print "Pressed Takeoff button" ;;
  queue_append "takeoff".

Definition rc_command (roll pitch quota yaw : Z) : string :=
  "rc " +:+ pretty roll +:+ " " +:+ pretty pitch +:+ " "
  +:+ pretty quota +:+ " " +:+ pretty yaw.

Definition _dispatch_axis_update : M unit :=
  roll ← axis_get "roll";
  pitch ← axis_get "pitch";
  quota ← axis_get "quota";
  yaw ← axis_get "yaw";
  queue_append (rc_command roll pitch quota yaw).

Definition _set_roll (raw_val : Z) : M unit :=
  val ← lift (int_truediv (raw_val * 100) _AXIS_MAX_VAL);
  cur ← axis_get "roll";
  if decide (cur ≠ val) then axis_set "roll" val ;; _dispatch_axis_update
  else mret tt.

Definition _set_quota (raw_val : Z) : M unit :=
  v ← lift (int_truediv (raw_val * 100) _AXIS_MAX_VAL);
  let val := - v in
  cur ← axis_get "quota";
  if decide (cur ≠ val) then axis_set "quota" val ;; _dispatch_axis_update
  else mret tt.

Definition _set_yaw (raw_val : Z) : M unit :=
  val ← lift (int_truediv (raw_val * 100) _AXIS_MAX_VAL);
  cur ← axis_get "yaw";
  if decide (cur ≠ val) then axis_set "yaw" val ;; _dispatch_axis_update
  else mret tt.

Definition _set_pitch (raw_val : Z) : M unit :=
  v ← lift (int_truediv (raw_val * 100) _AXIS_MAX_VAL);
  let val := - v in
  cur ← axis_get "pitch";
  if decide (cur ≠ val) then axis_set "pitch" val ;; _dispatch_axis_update
  else mret tt.

(** ** The event map and the joystick dispatch loop *)

(** The bound methods stored in [_event_map]. *)
Inductive method : Set :=
  | land_m | takeoff_m | emergency_land_m | command_m
  | set_roll_m | set_pitch_m | set_yaw_m | set_quota_m.

Definition _event_map : gmap string method :=
  <["SELECT" := land_m]> (<["START" := takeoff_m]>
  (<["A" := emergency_land_m]> (<["Y" := command_m]>
  (<["LEFT_X" := set_roll_m]> (<["LEFT_Y" := set_pitch_m]>
  (<["RIGHT_X" := set_yaw_m]> (<["RIGHT_Y" := set_quota_m]> ∅))))))).

(** [f()]: a call without arguments; the axis setters need one. *)
Definition call0 (f : method) : M unit :=
  match f with
  | land_m => _land false
  | takeoff_m => _takeoff
  | emergency_land_m => _emergency_land
  | command_m => _command
  | set_roll_m | set_pitch_m | set_yaw_m | set_quota_m => raise TypeError
  end.

(** [f(value)]: a call with one int; [_land] takes it as [force] (truthy when
    non-zero), the other button handlers take no argument. *)
Definition call1 (f : method) (value : Z) : M unit :=
  match f with
  | land_m => _land (bool_decide (value ≠ 0))
  | set_roll_m => _set_roll value
  | set_pitch_m => _set_pitch value
  | set_yaw_m => _set_yaw value
  | set_quota_m => _set_quota value
  | takeoff_m | emergency_land_m | command_m => raise TypeError
  end.

(** What [sdl2.ext.get_events()] yields: [button] and [axis] are [Uint8]
    indices, [value] is the [Sint16] reading of the axis. *)
Inductive sdl_event : Set :=
  | SDL_JOYBUTTONDOWN (button : nat)
  | SDL_JOYAXISMOTION (axis : nat) (value : Z)
  | SDL_OTHER.

(** The body of [for event in sdl2.ext.get_events()]. *)
Definition on_event (event : sdl_event) : M unit :=
  try_except
    match event with
    | SDL_JOYBUTTONDOWN button =>
        name ← tuple_getitem _button_map button;
        f ← dict_getitem _event_map name;
        call0 f
    | SDL_JOYAXISMOTION axis value =>
        if decide (Z.abs value > _AXIS_DEAD) then
          name ← tuple_getitem _axis_map axis;
          f ← dict_getitem _event_map name;
          call1 f value
        else mret tt
    | SDL_OTHER => mret tt
    end
    KeyError
    (mret tt).

(** [_receive_command_loop], run on the successive results of
    [get_events()]; the loop is observed until [polls] is used up. *)
Fixpoint _receive_command_loop (polls : list (list sdl_event)) : M unit :=
  match polls with
  | [] => mret tt
  | events :: later =>
      running ← get_running;
      if running : bool then
        for_each on_event events ;; _receive_command_loop later
      else mret tt
  end.

(** ** The network sender loop *)

(** One turn of [while self._running] in [_send_command_loop]; [answer] is
    what [sr1] returns should this turn transmit. Both [continue] statements
    end the turn. *)
Definition send_turn (answer : option packet) : M unit :=
  try_except
    (cmd ← queue_pop;
     answer ← sr1 cmd answer;
     try_except
       (load ← answer_Raw_load answer;
        response ← bytes_decode load;
        print ("EXE " +:+ cmd +:+ ": " +:+ response))
       TypeError
       (print ("EXE " +:+ cmd +:+ ": unknown")))
    IndexError
    (sleep 500).

(** [_send_command_loop], observed for one turn per element of [answers]. *)
Fixpoint _send_command_loop (answers : list (option packet)) : M unit :=
  match answers with
  | [] => mret tt
  | answer :: later =>
      running ← get_running;
      if running : bool then send_turn answer ;; _send_command_loop later
      else mret tt
  end.

(** The payloads handed to [sr1], in transmission order. *)
Definition sent (trace : list effect) : list string :=
  omap (λ e, match e with Sr1 _ _ payload _ => Some payload | _ => None end) trace.

(** The lines written to stdout. *)
Definition printed (trace : list effect) : list string :=
  omap (λ e, match e with Print line => Some line | _ => None end) trace.

(** ** [run]: the three threads

    The main thread leaves [_run_loop] on [KeyboardInterrupt] with
    [_running = False], clears the queue, calls [_land()] and joins the two
    worker threads. Each thread advances by atomic steps: the test of
    [while self._running], one loop body. A turn of the sender touches shared
    state only by its [pop], so taking the turn in one step loses no
    interleaving. *)

Inductive main_pc : Set :=
  | main_run_loop | main_clear | main_land | main_join | main_exit.

Inductive sender_pc : Set :=
  | sender_while | sender_turn | sender_returned | sender_died (e : exn).

Inductive receiver_pc : Set :=
  | receiver_while
  | receiver_for (events : list sdl_event)
  | receiver_returned
  | receiver_died (e : exn).

Record process : Type := Process {
  self : controller;
  main : main_pc;
  sender : sender_pc;
  receiver : receiver_pc
}.

(** Who moves next, with what the environment supplies to that step: the
    answer of the network, the events of the next poll. A step of the main
    thread in [_run_loop] is the arrival of [KeyboardInterrupt]. *)
Inductive move : Type :=
  | move_main
  | move_sender (answer : option packet)
  | move_receiver (poll : list sdl_event).

Definition finished_sender (pc : sender_pc) : bool :=
  match pc with sender_returned | sender_died _ => true | _ => false end.
Definition finished_receiver (pc : receiver_pc) : bool :=
  match pc with receiver_returned | receiver_died _ => true | _ => false end.

Definition step_main (p : process) : process :=
  match main p with
  | main_run_loop =>
      Process (set_running false (self p)) main_clear (sender p) (receiver p)
  | main_clear =>
      Process (snd (queue_clear (self p))) main_land (sender p) (receiver p)
  | main_land =>
      Process (snd (_land false (self p))) main_join (sender p) (receiver p)
  | main_join =>
      if finished_sender (sender p) && finished_receiver (receiver p)
      then Process (self p) main_exit (sender p) (receiver p)
      else p
  | main_exit => p
  end.

Definition step_sender (answer : option packet) (p : process) : process :=
  match sender p with
  | sender_while =>
      Process (self p) (main p)
        (if _running (self p) then sender_turn else sender_returned)
        (receiver p)
  | sender_turn =>
      match send_turn answer (self p) with
      | (Ok _, s) => Process s (main p) sender_while (receiver p)
      | (Raise e, s) => Process s (main p) (sender_died e) (receiver p)
      end
  | sender_returned | sender_died _ => p
  end.

Definition step_receiver (poll : list sdl_event) (p : process) : process :=
  match receiver p with
  | receiver_while =>
      Process (self p) (main p) (sender p)
        (if _running (self p) then receiver_for poll else receiver_returned)
  | receiver_for [] => Process (self p) (main p) (sender p) receiver_while
  | receiver_for (event :: rest) =>
      match on_event event (self p) with
      | (Ok _, s) => Process s (main p) (sender p) (receiver_for rest)
      | (Raise e, s) => Process s (main p) (sender p) (receiver_died e)
      end
  | receiver_returned | receiver_died _ => p
  end.

Definition step (m : move) (p : process) : process :=
  match m with
  | move_main => step_main p
  | move_sender answer => step_sender answer p
  | move_receiver poll => step_receiver poll p
  end.

(** The process after a schedule, first move first. *)
Definition execute (schedule : list move) (p : process) : process :=
  fold_left (λ p m, step m p) schedule p.

(** The process right after [run] started the two threads. *)
Definition started : process :=
  Process init main_run_loop sender_while receiver_while.

(** ** Vocabulary of the properties *)

(** The range of [event.jaxis.value], a [Sint16]. *)
Definition Sint16 (v : Z) : Prop := -32768 ≤ v ≤ 32767.

(** [raw * 100 / 32767] truncated toward zero, in exact integer arithmetic. *)
Definition percent (raw : Z) : Z := (raw * 100) `quot` _AXIS_MAX_VAL.

(** [int(lo * 100 / 32767)], computed on floats as the setters do, equals
    [percent lo] for the [n] readings from [lo] on. *)
Fixpoint agrees_from (lo : Z) (n : nat) : bool :=
  match n with
  | O => true
  | S k =>
      match int_truediv (lo * 100) _AXIS_MAX_VAL with
      | Ok v => (v =? percent lo) && agrees_from (lo + 1) k
      | Raise _ => false
      end
  end.

(** The common shape of the four setters. *)
Definition set_axis (key : string) (invert : bool) (raw_val : Z) : M unit :=
  v ← lift (int_truediv (raw_val * 100) _AXIS_MAX_VAL);
  let val := if invert then - v else v in
  cur ← axis_get key;
  if decide (cur ≠ val) then axis_set key val ;; _dispatch_axis_update
  else mret tt.

(** What one call may do to the axis dictionary: nothing, or store the
    truncated percentage of [value], possibly negated, under one key. *)
Definition axis_effect (value : Z) (s s' : controller) : Prop :=
  _axis_state s' = _axis_state s
  ∨ ∃ key v (invert : bool),
      int_truediv (value * 100) _AXIS_MAX_VAL = Ok v
      ∧ _axis_state s' = <[key := if invert then - v else v]> (_axis_state s).

(** A step that neither changes [_running] nor transmits. *)
Definition quiet (s s' : controller) : Prop :=
  _running s' = _running s ∧ sent (effects s') = sent (effects s).

(** The four control axes, with the key of each in [_axis_state], the index
    SDL reports for the stick that drives it ([_axis_map]: LEFT_X, LEFT_Y,
    RIGHT_X, RIGHT_Y), its setter and the sign the setter applies. *)
Inductive axis_name : Set := Roll | Pitch | Quota | Yaw.

#[global] Instance axis_name_eq_dec : EqDecision axis_name.
Proof. solve_decision. Defined.

Definition key (a : axis_name) : string :=
  match a with Roll => "roll" | Pitch => "pitch" | Quota => "quota" | Yaw => "yaw" end.
Definition inverted (a : axis_name) : bool :=
  match a with Pitch | Quota => true | Roll | Yaw => false end.
Definition hardware_axis (a : axis_name) : nat :=
  match a with Roll => 0 | Pitch => 1 | Yaw => 3 | Quota => 4 end%nat.
Definition setter (a : axis_name) : Z → M unit :=
  match a with
  | Roll => _set_roll | Pitch => _set_pitch | Quota => _set_quota | Yaw => _set_yaw
  end.

(** The value a setter computes from a reading. *)
Definition normalized (a : axis_name) (raw : Z) : Z :=
  if inverted a then - percent raw else percent raw.

(** The four stored values, as the [rc] command lists them. *)
Record axes : Set := Axes { roll : Z; pitch : Z; quota : Z; yaw : Z }.

Definition read (a : axis_name) (x : axes) : Z :=
  match a with Roll => roll x | Pitch => pitch x | Quota => quota x | Yaw => yaw x end.
Definition write (a : axis_name) (v : Z) (x : axes) : axes :=
  match a with
  | Roll => Axes v (pitch x) (quota x) (yaw x)
  | Pitch => Axes (roll x) v (quota x) (yaw x)
  | Quota => Axes (roll x) (pitch x) v (yaw x)
  | Yaw => Axes (roll x) (pitch x) (quota x) v
  end.

(** The dictionary [m] holds the values [x] under the four keys. *)
Definition holds (m : gmap string Z) (x : axes) : Prop :=
  ∀ a, m !! key a = Some (read a x).

(** The state after a stick event that changes the stored value. *)
Definition updated (a : axis_name) (val : Z) (x : axes) (s : controller) : controller :=
  let x' := write a val x in
  Controller (_running s)
    (_command_queue s ++ [rc_command (roll x') (pitch x') (quota x') (yaw x')])
    (<[key a := val]> (_axis_state s))
    (effects s).





(** The normalization as the spec words it: [round(a / b)] for [b > 0], to
    the nearest integer, a tie to the even one. *)
Definition round_div (a b : Z) : Z :=
  let q := a `div` b in
  let twice := 2 * (a `mod` b) in
  if twice <? b then q
  else if b <? twice then q + 1
  else if Z.even q then q else q + 1.

(** Events whose axis value is in the range of the hardware. *)
Definition hardware_event (ev : sdl_event) : Prop :=
  match ev with
  | SDL_JOYAXISMOTION _ value => Sint16 value
  | _ => True
  end.

Definition percentages (m : gmap string Z) : Prop :=
  map_Forall (λ _ v, -100 ≤ v ≤ 100) m.

(** The [sr1] call made for [cmd], and the line of the [except TypeError]
    handler, which the spec calls the "unknown" outcome. *)
Definition transmission (cmd : string) : effect := Sr1 "192.168.10.1" 8889 cmd 200.
Definition unknown_line (cmd : string) : string := "EXE " +:+ cmd +:+ ": unknown".

(** The state a turn leaves when it popped a command and produced [out]. *)
Definition after_turn (q : list string) (out : list effect) (s : controller) : controller :=
  Controller (_running s) q (_axis_state s) (effects s ++ out).

(** The sender is between the test of its [while] and its [pop]. *)
Definition sender_passed_test (p : process) : Prop := sender p = sender_turn.

(** ** Vocabulary of the further properties *)

(** Events whose index lies inside [_button_map] or [_axis_map]. *)
Definition in_range (ev : sdl_event) : Prop :=
  match ev with
  | SDL_JOYBUTTONDOWN button => (button < length _button_map)%nat
  | SDL_JOYAXISMOTION axis _ => (axis < length _axis_map)%nat
  | SDL_OTHER => True
  end.

Definition safe_event (ev : sdl_event) : Prop := in_range ev ∧ hardware_event ev.

(** A computation that ends normally or with [KeyError]. *)
Definition at_worst_KeyError (r : result unit * controller) : Prop :=
  r.1 = Ok tt ∨ r.1 = Raise KeyError.

(** An answer the sender outlives: none, one without [Raw] layer, or one
    whose payload is UTF-8. *)
Definition survivable (answer : option packet) : Prop :=
  match answer with
  | None => True
  | Some p =>
      match getlayer_Raw p with
      | None => True
      | Some load => utf8_valid (map Byte.to_N load) = true
      end
  end.

Definition ascii_text (text : string) : Prop :=
  Forall (λ b, (Byte.to_N b ≤ 127)%N) (list_byte_of_string text).

(** The commands of the protocol: the four plain ones, and [rc] with four
    percentages. *)
Definition wellformed_command (cmd : string) : Prop :=
  cmd ∈ ["land"; "takeoff"; "command"; "emergency"]
  ∨ ∃ r p q y,
      (-100 ≤ r ≤ 100) ∧ (-100 ≤ p ≤ 100) ∧ (-100 ≤ q ≤ 100) ∧ (-100 ≤ y ≤ 100)
      ∧ cmd = rc_command r p q y.

(** A stored value after an event: the one before, or a deflection of at
    least 7 percent. *)
Definition kept_or_deflected (v v' : Z) : Prop := v' = v ∨ 7 ≤ Z.abs v' ≤ 100.

(** Moves whose joystick readings are in the range of the hardware. *)
Definition hardware_move (m : move) : Prop :=
  match m with
  | move_receiver poll => Forall hardware_event poll
  | _ => True
  end.

(** What holds of every reachable process when the joystick reports readings
    in range: the stored values are percentages, and the queue and the
    transmissions hold protocol commands only. *)
Definition protocol_invariant (p : process) : Prop :=
  percentages (_axis_state (self p))
  ∧ Forall wellformed_command (_command_queue (self p))
  ∧ Forall wellformed_command (sent (effects (self p)))
  ∧ match receiver p with
    | receiver_for events => Forall hardware_event events
    | _ => True
    end.

(** How [_running] and the three program counters go together in every
    reachable process. *)
Definition lifecycle_invariant (p : process) : Prop :=
  (_running (self p) = true ↔ main p = main_run_loop)
  ∧ (sender p = sender_returned → main p ≠ main_run_loop)
  ∧ (receiver p = receiver_returned → main p ≠ main_run_loop)
  ∧ (main p = main_exit →
       finished_sender (sender p) = true ∧ finished_receiver (receiver p) = true).

(** ** [_init_joystick]

    [names] are the names SDL reports for the joysticks it enumerates, in
    order; every [SDL_JoystickOpen] succeeds. The result is the index of the
    joystick returned, or the exception raised, with the lines printed. The
    module-level code of src/airjoy.py is the same sequence. *)
Inductive startup (A : Type) : Type :=
  | Opened (a : A)
  | RuntimeError
  | Failed (e : exn).
Arguments Opened {A} a.
Arguments RuntimeError {A}.
Arguments Failed {A} e.

(** [for i in range(njoysticks)]: one line per joystick, until a name does
    not decode. *)
Fixpoint list_joysticks (names : list (list byte)) : option exn * list string :=
  match names with
  | [] => (None, [])
  | name :: rest =>
      if utf8_valid (map Byte.to_N name) then
        let later := list_joysticks rest in
        (later.1, ("  - " +:+ string_of_list_byte name) :: later.2)
      else (Some UnicodeDecodeError, [])
  end.

Definition _init_joystick (names : list (list byte)) : startup nat * list string :=
  if (length names <? 1)%nat then (RuntimeError, [])
  else
    let listed := list_joysticks names in
    match listed.1 with
    | None => (Opened 0%nat, "Joysticks available:" :: listed.2)
    | Some e => (Failed e, "Joysticks available:" :: listed.2)
    end.

Definition decodable (name : list byte) : Prop :=
  utf8_valid (map Byte.to_N name) = true.

(** ** src/events.py

    [W] is the type of [world], [D] what an SDL event carries besides its
    type. A handler is a callable [event_handler(event, world)]: it may change
    the world, start or stop the loop and raise; it does not register
    handlers while it runs. [event_handlers] is the module's global
    dictionary, from event type to the list of its handlers. *)
Module events.
Section EventLoop.
Context {W D : Type}.

Record SDL_Event : Type := Event { event_type : Z; data : D }.

(** The world and the [keepRunning] field of the [EventLoop]. *)
Record loop : Type := Loop { world : W; keepRunning : bool }.

Definition callback : Type := SDL_Event → loop → result unit * loop.

Definition stop (l : loop) : loop := Loop (world l) false.

(** What [handler] returns: [None], or the bound method
    [event_handlers[event_type].append]. *)
Inductive returned : Type :=
  | returns_None
  | returns_append (event_type : Z).

(** [handler(event_type, new_handler=None)]. *)
Definition handler (event_type : Z) (new_handler : option callback)
    (event_handlers : gmap Z (list callback)) :
    returned * gmap Z (list callback) :=
  let event_handlers :=
    match event_handlers !! event_type with
    | None => <[event_type := []]> event_handlers
    | Some _ => event_handlers
    end in
  match new_handler with
  | None => (returns_append event_type, event_handlers)
  | Some h => (returns_None, alter (λ hs, hs ++ [h]) event_type event_handlers)
  end.

(** Calling the bound [append] that [handler] returned, as a decorator
    does. *)
Definition call_append (event_type : Z) (h : callback)
    (event_handlers : gmap Z (list callback)) : gmap Z (list callback) :=
  alter (λ hs, hs ++ [h]) event_type event_handlers.

(** [for event_handler in event_handlers.get(event.type, ()):
    event_handler(event, world); if not self.keepRunning: break]. *)
Fixpoint dispatch (hs : list callback) (event : SDL_Event) (l : loop) :
    result unit * loop :=
  match hs with
  | [] => (Ok tt, l)
  | h :: rest =>
      match h event l with
      | (Ok _, l') => if keepRunning l' then dispatch rest event l' else (Ok tt, l')
      | (Raise e, l') => (Raise e, l')
      end
  end.

(** [pump]: [pending] is the SDL queue, polled from its head; the third
    component is what is left in the queue. *)
Fixpoint pump (event_handlers : gmap Z (list callback))
    (pending : list SDL_Event) (l : loop) :
    result unit * loop * list SDL_Event :=
  match pending with
  | [] => (Ok tt, l, [])
  | event :: rest =>
      match dispatch (default [] (event_handlers !! event_type event)) event l with
      | (Ok _, l') =>
          if keepRunning l' then pump event_handlers rest l' else (Ok tt, l', rest)
      | (Raise e, l') => (Raise e, l', rest)
      end
  end.

(** An event whose type has no handler. *)
Definition unhandled (event_handlers : gmap Z (list callback))
    (event : SDL_Event) : Prop :=
  default [] (event_handlers !! event_type event) = [].

Inductive sdl_call : Set := Mix_Quit | TTF_Quit | SDL_Quit.

(** The [finally] clause of [runloop]. *)
Definition quits : list sdl_call := [Mix_Quit; TTF_Quit; SDL_Quit].

(** How [runloop] is seen to end: it returned, it raised, or it is still
    looping when the observation stops. *)
Inductive ending : Set := Returned | Raised (e : exn) | Looping.

(** [runloop(world, loopFunction)]: [arrivals] are the events that reach the
    SDL queue before each pump. The result is the ending, the loop, the SDL
    queue and the library calls made. *)
Fixpoint runloop (event_handlers : gmap Z (list callback))
    (loopFunction : loop → result unit * loop)
    (arrivals : list (list SDL_Event)) (pending : list SDL_Event) (l : loop) :
    ending * loop * list SDL_Event * list sdl_call :=
  match arrivals with
  | [] =>
      if keepRunning l then (Looping, l, pending, [])
      else (Returned, l, pending, quits)
  | batch :: later =>
      if keepRunning l then
        match pump event_handlers (pending ++ batch) l with
        | (Ok _, l1, rest) =>
            match loopFunction l1 with
            | (Ok _, l2) => runloop event_handlers loopFunction later rest l2
            | (Raise e, l2) => (Raised e, l2, rest, quits)
            end
        | (Raise e, l1, rest) => (Raised e, l1, rest, quits)
        end
      else (Returned, l, pending, quits)
  end.

End EventLoop.
End events.

(** ** Proof automation *)

Ltac unfold_M :=
  unfold answer_Raw_load, bytes_decode, axis_get, axis_set, dict_getitem,
    tuple_getitem, queue_append, queue_clear, queue_pop, sr1, print, sleep,
    get_running, try_except, lift, raise, mbind, M_bind, mret, M_ret in *.

Ltac decide_handlers :=
  repeat first [ rewrite decide_True by done
               | rewrite decide_False by done
               | progress cbn ].

Ltac close_lifecycle :=
  split_and!; intros; simplify_eq; try done; try tauto;
  try (intuition congruence).

(** * Properties *)

(** ** The deque *)

Lemma deque_pop_right_snoc {A} (q : list A) (x : A) :
  deque_pop_right (q ++ [x]) = Some (x, q).
Proof. unfold deque_pop_right. rewrite rev_unit, rev_involutive. reflexivity. Qed.

Lemma deque_pop_right_nil {A} : deque_pop_right (@nil A) = None.
Proof. reflexivity. Qed.

Lemma queue_pop_snoc s q cmd :
  _command_queue s = q ++ [cmd] → queue_pop s = (Ok cmd, set_command_queue q s).
Proof. intros Hq. unfold queue_pop. by rewrite Hq, deque_pop_right_snoc. Qed.

(** ** Float division against integer division

    On every [Sint16] reading the float computation [int(raw * 100 / 32767)]
    returns the integer quotient truncated toward zero: the 65536 readings
    are evaluated one by one. *)

Lemma agrees_from_sound (n : nat) :
  ∀ lo, agrees_from lo n = true →
  ∀ raw, lo ≤ raw < lo + Z.of_nat n →
  int_truediv (raw * 100) _AXIS_MAX_VAL = Ok (percent raw).
Proof.
  induction n as [|k IH]; intros lo Hchk raw Hraw; [lia|].
  cbn [agrees_from] in Hchk.
  destruct (int_truediv (lo * 100) _AXIS_MAX_VAL) as [v|e] eqn:Hlo; [|discriminate].
  apply andb_true_iff in Hchk as [Hv Hrest].
  apply Z.eqb_eq in Hv.
  destruct (decide (raw = lo)) as [->|Hne].
  - rewrite Hlo. congruence.
  - apply (IH (lo + 1) Hrest). lia.
Qed.

Lemma agrees_on_sint16 : agrees_from (-32768) (Z.to_nat 65536) = true.
Proof. vm_cast_no_check (eq_refl true). Qed.

Lemma int_truediv_sint16 (raw : Z) :
  Sint16 raw → int_truediv (raw * 100) _AXIS_MAX_VAL = Ok (percent raw).
Proof.
  intros [Hlo Hhi]. apply (agrees_from_sound _ _ agrees_on_sint16). lia.
Qed.

Lemma percent_bounds (raw : Z) : Sint16 raw → -100 ≤ percent raw ≤ 100.
Proof.
  intros [Hlo Hhi]. unfold percent, _AXIS_MAX_VAL.
  assert (Hmin : (-3276800) `quot` 32767 = -100) by reflexivity.
  assert (Hmax : 3276700 `quot` 32767 = 100) by reflexivity.
  pose proof (Z.quot_le_mono (-3276800) (raw * 100) 32767) as Hl.
  pose proof (Z.quot_le_mono (raw * 100) 3276700 32767) as Hu.
  lia.
Qed.

(** ** What the handlers leave alone *)

Lemma _set_roll_eq raw : _set_roll raw = set_axis "roll" false raw.
Proof. reflexivity. Qed.
Lemma _set_pitch_eq raw : _set_pitch raw = set_axis "pitch" true raw.
Proof. reflexivity. Qed.
Lemma _set_yaw_eq raw : _set_yaw raw = set_axis "yaw" false raw.
Proof. reflexivity. Qed.
Lemma _set_quota_eq raw : _set_quota raw = set_axis "quota" true raw.
Proof. reflexivity. Qed.

Lemma setter_eq a raw : setter a raw = set_axis (key a) (inverted a) raw.
Proof. by destruct a. Qed.

Lemma sent_app l1 l2 : sent (l1 ++ l2) = sent l1 ++ sent l2.
Proof. unfold sent. apply omap_app. Qed.

Lemma sent_print l line : sent (l ++ [Print line]) = sent l.
Proof. rewrite sent_app. cbn. apply app_nil_r. Qed.

Lemma _dispatch_axis_update_frame s :
  _running (_dispatch_axis_update s).2 = _running s
  ∧ _axis_state (_dispatch_axis_update s).2 = _axis_state s
  ∧ effects (_dispatch_axis_update s).2 = effects s.
Proof.
  unfold _dispatch_axis_update. unfold_M.
  repeat (destruct (_axis_state s !! _); cbn; [|done]). done.
Qed.

Lemma set_axis_frame key invert raw s :
  let s' := (set_axis key invert raw s).2 in
  _running s' = _running s ∧ effects s' = effects s ∧
  (_axis_state s' = _axis_state s
   ∨ ∃ v, int_truediv (raw * 100) _AXIS_MAX_VAL = Ok v
          ∧ _axis_state s' = <[key := if invert then - v else v]> (_axis_state s)).
Proof.
  unfold set_axis. unfold_M.
  destruct (int_truediv _ _) as [v|e] eqn:Hv; cbn; [|auto].
  destruct (_axis_state s !! key) as [cur|]; cbn; [|auto].
  destruct (decide _); cbn; [|auto].
  match goal with |- context [_dispatch_axis_update ?t] =>
    destruct (_dispatch_axis_update_frame t) as (Hr & Ha & He) end.
  rewrite Hr, Ha, He. cbn. eauto 10.
Qed.

Lemma call0_frame f s :
  quiet s (call0 f s).2 ∧ _axis_state (call0 f s).2 = _axis_state s.
Proof.
  unfold quiet.
  destruct f; cbn [call0]; unfold _land, _takeoff, _emergency_land, _command;
    unfold_M; cbn; rewrite ?sent_print; auto.
Qed.

Lemma call1_frame f value s :
  quiet s (call1 f value s).2 ∧ axis_effect value s (call1 f value s).2.
Proof.
  assert (Hset : ∀ key invert,
    quiet s (set_axis key invert value s).2
    ∧ axis_effect value s (set_axis key invert value s).2).
  { intros key invert. unfold quiet.
    destruct (set_axis_frame key invert value s) as (Hr & He & [Ha | (v & Hv & Ha)]);
      rewrite He; (split; [done|]); [by left | right; eauto]. }
  destruct f; cbn [call1];
    rewrite ?_set_roll_eq, ?_set_pitch_eq, ?_set_yaw_eq, ?_set_quota_eq;
    try apply Hset; try (split; [done | by left]).
  unfold quiet, _land. unfold_M.
  case_bool_decide; cbn; rewrite sent_print; (split; [done | by left]).
Qed.

Lemma on_event_frame event s :
  quiet s (on_event event s).2
  ∧ match event with
    | SDL_JOYAXISMOTION _ value => axis_effect value s (on_event event s).2
    | _ => _axis_state (on_event event s).2 = _axis_state s
    end.
Proof.
  unfold on_event, quiet. unfold_M.
  destruct event as [button | axis value |]; [| |by cbn].
  - destruct (_button_map !! button) as [name|]; [|by cbn].
    destruct (_event_map !! name) as [f|]; [|by cbn].
    destruct (call0_frame f s) as [Hr Ha].
    destruct (call0 f s) as [[[]|e] s']; cbn in *; [done|].
    by destruct (decide _).
  - destruct (decide _); [|cbn; unfold axis_effect; by auto].
    destruct (_axis_map !! axis) as [name|]; [|cbn; unfold axis_effect; by auto].
    destruct (_event_map !! name) as [f|]; [|cbn; unfold axis_effect; by auto].
    destruct (call1_frame f value s) as [Hr Ha].
    destruct (call1 f value s) as [[[]|e] s']; cbn in *; [done|].
    by destruct (decide _).
Qed.

(** ** Invariants of the loops *)

Section Invariant.
Variable P : controller → Prop.

Lemma for_each_invariant {A} (Q : A → Prop) (body : A → M unit) :
  (∀ x s, Q x → P s → P (body x s).2) →
  ∀ xs s, Forall Q xs → P s → P (for_each body xs s).2.
Proof.
  intros Hbody xs. induction xs as [|x xs IH]; intros s HQ HP; [done|].
  inversion_clear HQ as [|? ? Hx Hxs].
  cbn [for_each]. unfold mbind, M_bind.
  specialize (Hbody x s Hx HP).
  destruct (body x s) as [[[]|e] s1]; cbn in *; [|done].
  by apply IH.
Qed.

Variable Q : sdl_event → Prop.
Hypothesis on_event_keeps : ∀ ev s, Q ev → P s → P (on_event ev s).2.

Lemma _receive_command_loop_invariant :
  ∀ polls s, Forall (Forall Q) polls → P s →
  P (_receive_command_loop polls s).2.
Proof.
  intros polls. induction polls as [|events polls IH]; intros s HQ HP; [done|].
  inversion_clear HQ as [|? ? Hev Hpolls].
  cbn [_receive_command_loop]. unfold get_running, mbind, M_bind.
  destruct (_running s); [|done].
  pose proof (for_each_invariant Q on_event on_event_keeps events s Hev HP) as H1.
  destruct (for_each on_event events s) as [[[]|e] s1]; cbn in *; [|done].
  by apply IH.
Qed.
End Invariant.

(** ** Stick events *)

Lemma holds_init : holds (_axis_state init) (Axes 0 0 0 0).
Proof. intros []; reflexivity. Qed.

Lemma key_inj a b : key a = key b → a = b.
Proof. destruct a, b; cbn; congruence. Qed.

Lemma holds_insert m x a v : holds m x → holds (<[key a := v]> m) (write a v x).
Proof.
  intros H b. destruct (decide (a = b)) as [->|Hne].
  - rewrite lookup_insert_eq. by destruct b.
  - rewrite lookup_insert_ne by (intros E; by apply key_inj in E).
    rewrite H. by destruct a, b.
Qed.

(** Index [hardware_axis a] of [_axis_map] names the stick whose entry in
    [_event_map] is the setter of [a]. *)
Lemma stick_axis_resolves a :
  ∃ name, _axis_map !! hardware_axis a = Some name
          ∧ ∃ f, _event_map !! name = Some f ∧ call1 f = setter a.
Proof. destruct a; (eexists; split; [reflexivity|]); eexists; split; reflexivity. Qed.

Lemma _dispatch_axis_update_holds s x :
  holds (_axis_state s) x →
  _dispatch_axis_update s =
    (Ok tt, set_command_queue
              (_command_queue s ++ [rc_command (roll x) (pitch x) (quota x) (yaw x)]) s).
Proof.
  intros H. unfold _dispatch_axis_update. unfold_M.
  pose proof (H Roll) as Hr. pose proof (H Pitch) as Hp.
  pose proof (H Quota) as Hq. pose proof (H Yaw) as Hy.
  cbn [key read] in Hr, Hp, Hq, Hy. rewrite Hr, Hp, Hq, Hy. reflexivity.
Qed.

(** An above-dead-zone event of a mapped stick leaves the state as it is when
    the normalized reading is the stored value, and otherwise stores it and
    appends the [rc] command of the four values then stored. *)
Lemma on_stick_event a raw s x :
  Sint16 raw → Z.abs raw > _AXIS_DEAD → holds (_axis_state s) x →
  on_event (SDL_JOYAXISMOTION (hardware_axis a) raw) s =
    (Ok tt, if decide (read a x = normalized a raw) then s
            else updated a (normalized a raw) x s).
Proof.
  intros Hraw Hdead Hx.
  destruct (stick_axis_resolves a) as (name & Hname & f & Hf & Hcall).
  unfold on_event, try_except, tuple_getitem, dict_getitem.
  rewrite decide_True by done.
  unfold mbind, M_bind. rewrite Hname. cbn [mret M_ret].
  rewrite Hf. cbn [mret M_ret]. rewrite Hcall, setter_eq.
  unfold set_axis, lift, axis_get, dict_getitem, mbind, M_bind.
  rewrite (int_truediv_sint16 raw Hraw), (Hx a). cbn [mret M_ret].
  fold (normalized a raw).
  destruct (decide (read a x ≠ normalized a raw)) as [Hne|Heq].
  - rewrite decide_False by done.
    unfold axis_set. cbn [fst snd].
    erewrite _dispatch_axis_update_holds by (apply holds_insert, Hx).
    reflexivity.
  - apply dec_stable in Heq. rewrite decide_True by done. reflexivity.
Qed.


(** C5 (as amended). For every axis event of a mapped stick whose raw value,
    a signed 16-bit reading, exceeds the dead zone, the value stored for the
    axis afterwards is [raw * 100 / 32767] truncated toward zero (not rounded
    to nearest), with the sign inverted for the quota and pitch axes. *)
Theorem stored_value_is_truncated
    (a : axis_name) (raw : Z) (s : controller) (x : axes) :
  Sint16 raw → Z.abs raw > _AXIS_DEAD → holds (_axis_state s) x →
  _axis_state (on_event (SDL_JOYAXISMOTION (hardware_axis a) raw) s).2 !! key a
  = Some (if inverted a then - ((raw * 100) `quot` _AXIS_MAX_VAL)
          else (raw * 100) `quot` _AXIS_MAX_VAL).
Proof.
  intros Hraw Hdead Hx. rewrite (on_stick_event a raw s x Hraw Hdead Hx).
  fold (percent raw). fold (normalized a raw). cbn [snd].
  destruct (decide _) as [Heq|Hne].
  - by rewrite (Hx a), Heq.
  - cbn. apply lookup_insert_eq.
Qed.

Lemma stored_value_is_truncated_witness :
  (Sint16 (-32768) ∧ Z.abs (-32768) > _AXIS_DEAD
   ∧ holds (_axis_state init) (Axes 0 0 0 0))
  ∧ _axis_state (on_event (SDL_JOYAXISMOTION 1 (-32768)) init).2 !! "pitch"
    = Some 100.
Proof.
  assert (Hraw : Sint16 (-32768)) by (unfold Sint16; lia).
  assert (Hdead : Z.abs (-32768) > _AXIS_DEAD) by (unfold _AXIS_DEAD; lia).
  split; [by split_and!; try apply holds_init|].
  exact (stored_value_is_truncated Pitch (-32768) init (Axes 0 0 0 0)
           Hraw Hdead holds_init).
Defined.

(** C5 (counterexample). The reading 16383 on the roll stick stores 49, where
    [round(16383 * 100 / 32767)] is 50. *)
Lemma stored_value_not_rounded :
  let stored := _axis_state (on_event (SDL_JOYAXISMOTION 0 16383) init).2 !! "roll" in
  stored = Some 49
  ∧ round_div (16383 * 100) _AXIS_MAX_VAL = 50
  ∧ stored ≠ Some (round_div (16383 * 100) _AXIS_MAX_VAL).
Proof. split_and!; [reflexivity | reflexivity | by vm_compute]. Qed.

(** One stick event: a command is appended exactly when the normalized
    reading differs from the stored value. *)
Lemma stick_event_emits_iff_changed a raw s x :
  Sint16 raw → Z.abs raw > _AXIS_DEAD → holds (_axis_state s) x →
  let s' := (on_event (SDL_JOYAXISMOTION (hardware_axis a) raw) s).2 in
  let x' := write a (normalized a raw) x in
  (normalized a raw ≠ read a x ↔
     _command_queue s' =
       _command_queue s ++ [rc_command (roll x') (pitch x') (quota x') (yaw x')])
  ∧ (normalized a raw = read a x ↔ _command_queue s' = _command_queue s).
Proof.
  intros Hraw Hdead Hx. cbn zeta.
  rewrite (on_stick_event a raw s x Hraw Hdead Hx). cbn [snd].
  assert (Hgrow : ∀ (q : list string) c, q ++ [c] ≠ q).
  { intros q c E. apply (f_equal length) in E. rewrite length_app in E. cbn in E. lia. }
  destruct (decide (read a x = normalized a raw)) as [Heq|Hne]; cbn.
  - split; split; intros H; try done.
    + by symmetry in H; apply Hgrow in H.
  - split; split; intros H; try done.
    + by apply Hgrow in H.
Qed.



(** C8. An axis-motion event with [abs(rawValue) <= 2500] changes nothing:
    no command is enqueued, the axis dictionary is not touched, nothing is
    printed and nothing is raised, whatever the axis index. *)
Theorem dead_zone_event_is_dropped (axis : nat) (raw : Z) (s : controller) :
  Z.abs raw ≤ 2500 → on_event (SDL_JOYAXISMOTION axis raw) s = (Ok tt, s).
Proof.
  intros Hraw. unfold on_event, try_except.
  rewrite decide_False by (unfold _AXIS_DEAD; lia). reflexivity.
Qed.

Lemma dead_zone_event_is_dropped_witness :
  Z.abs (-2500) ≤ 2500
  ∧ on_event (SDL_JOYAXISMOTION 0 (-2500)) init = (Ok tt, init).
Proof.
  assert (H : Z.abs (-2500) ≤ 2500) by (cbn; lia).
  split; [exact H|]. exact (dead_zone_event_is_dropped 0 (-2500) init H).
Defined.

(** ** The stored values are percentages *)

Lemma init_percentages : percentages (_axis_state init).
Proof.
  unfold init, percentages. cbn [_axis_state].
  repeat (apply map_Forall_insert_2; [lia|]). apply map_Forall_empty.
Qed.

Lemma on_event_percentages ev s :
  hardware_event ev → percentages (_axis_state s) →
  percentages (_axis_state (on_event ev s).2).
Proof.
  intros Hev HP. destruct (on_event_frame ev s) as [_ Hax].
  destruct ev as [button | axis value |]; try (by rewrite Hax).
  destruct Hax as [-> | (k & v & invert & Hv & ->)]; [done|].
  cbn in Hev. rewrite (int_truediv_sint16 value Hev) in Hv.
  injection Hv as <-. pose proof (percent_bounds value Hev).
  apply map_Forall_insert_2; [|done]. destruct invert; lia.
Qed.

(** C9. Starting from the all-zero dictionary of [__init__], whatever events
    the dispatcher handles, as long as every axis reading lies in the
    hardware range [-32768, 32767], every value stored in the axis dictionary
    is an integer in [-100, 100]. *)
Theorem axis_state_stays_percentage (polls : list (list sdl_event)) :
  Forall (Forall hardware_event) polls →
  ∀ k v, _axis_state (_receive_command_loop polls init).2 !! k = Some v →
         -100 ≤ v ≤ 100.
Proof.
  intros Hpolls.
  apply (_receive_command_loop_invariant
           (λ s, percentages (_axis_state s)) hardware_event);
    [apply on_event_percentages | done | apply init_percentages].
Qed.

Lemma axis_state_stays_percentage_witness :
  let polls := [[SDL_JOYAXISMOTION 1 (-32768); SDL_JOYAXISMOTION 4 (-32768)];
                [SDL_JOYAXISMOTION 0 32767; SDL_JOYBUTTONDOWN 7]] in
  (Forall (Forall hardware_event) polls
   ∧ _axis_state (_receive_command_loop polls init).2 !! "pitch" = Some 100)
  ∧ -100 ≤ 100 ≤ 100.
Proof.
  intros polls.
  assert (Hpolls : Forall (Forall hardware_event) polls)
    by (repeat constructor; unfold Sint16; lia).
  assert (Hpitch : _axis_state (_receive_command_loop polls init).2 !! "pitch"
                   = Some 100) by reflexivity.
  split; [by split|].
  exact (axis_state_stays_percentage polls Hpolls "pitch" 100 Hpitch).
Defined.

(** ** The sender, one turn at a time *)

Lemma send_turn_empty answer s :
  _command_queue s = [] → send_turn answer s = (Ok tt, emit (Sleep 500) s).
Proof.
  intros Hq. unfold send_turn, try_except, mbind, M_bind, queue_pop.
  by rewrite Hq.
Qed.

Lemma send_turn_no_reply s q cmd :
  _command_queue s = q ++ [cmd] →
  send_turn None s =
    (Ok tt, after_turn q [transmission cmd; Print (unknown_line cmd)] s).
Proof.
  intros Hq. unfold send_turn, try_except, mbind, M_bind.
  rewrite (queue_pop_snoc s q cmd Hq). decide_handlers.
  unfold after_turn, print, emit. cbn. by rewrite <- app_assoc.
Qed.

Lemma send_turn_acknowledged s q cmd p load :
  _command_queue s = q ++ [cmd] → getlayer_Raw p = Some load →
  utf8_valid (map Byte.to_N load) = true →
  send_turn (Some p) s =
    (Ok tt,
     after_turn q
       [transmission cmd;
        Print ("EXE " +:+ cmd +:+ ": " +:+ string_of_list_byte load)] s).
Proof.
  intros Hq Hp Hload. unfold send_turn, try_except, mbind, M_bind.
  rewrite (queue_pop_snoc s q cmd Hq). cbn. rewrite Hp. cbn.
  unfold bytes_decode. rewrite Hload. decide_handlers.
  unfold after_turn, emit. cbn. by rewrite <- app_assoc.
Qed.

Lemma send_turn_undecodable s q cmd p load :
  _command_queue s = q ++ [cmd] → getlayer_Raw p = Some load →
  utf8_valid (map Byte.to_N load) = false →
  send_turn (Some p) s =
    (Raise UnicodeDecodeError, after_turn q [transmission cmd] s).
Proof.
  intros Hq Hp Hload. unfold send_turn, try_except, mbind, M_bind.
  rewrite (queue_pop_snoc s q cmd Hq). cbn. rewrite Hp. cbn.
  unfold bytes_decode. rewrite Hload. by decide_handlers.
Qed.

Lemma send_turn_no_Raw s q cmd p :
  _command_queue s = q ++ [cmd] → getlayer_Raw p = None →
  send_turn (Some p) s = (Ok tt, after_turn q [transmission cmd; Sleep 500] s).
Proof.
  intros Hq Hp. unfold send_turn, try_except, mbind, M_bind.
  rewrite (queue_pop_snoc s q cmd Hq). cbn. rewrite Hp. decide_handlers.
  unfold after_turn, sleep, emit. cbn. by rewrite <- app_assoc.
Qed.

Lemma send_turn_running answer s : _running (send_turn answer s).2 = _running s.
Proof.
  unfold send_turn, try_except, mbind, M_bind, queue_pop.
  destruct (deque_pop_right _) as [[cmd q]|]; [|by decide_handlers].
  cbn. destruct answer as [p|]; cbn; [|by decide_handlers].
  destruct (getlayer_Raw p) as [load|]; cbn; [|by decide_handlers].
  unfold bytes_decode. destruct (utf8_valid _); by decide_handlers.
Qed.

Lemma _send_command_loop_turn answer later s :
  _running s = true →
  _send_command_loop (answer :: later) s =
    match send_turn answer s with
    | (Ok _, s') => _send_command_loop later s'
    | (Raise e, s') => (Raise e, s')
    end.
Proof.
  intros Hr. cbn [_send_command_loop]. unfold get_running, mbind, M_bind.
  by rewrite Hr.
Qed.

(** A turn on a queue that is not empty removes its rightmost command and
    transmits it, whatever comes back. *)
Lemma send_turn_consumes s q cmd answer :
  _command_queue s = q ++ [cmd] →
  let s' := (send_turn answer s).2 in
  _command_queue s' = q
  ∧ sent (effects s') = sent (effects s) ++ [cmd]
  ∧ _axis_state s' = _axis_state s
  ∧ _running s' = _running s.
Proof.
  intros Hq. cbn zeta. destruct answer as [p|].
  - destruct (getlayer_Raw p) as [load|] eqn:Hp.
    + destruct (utf8_valid (map Byte.to_N load)) eqn:Hload.
      * rewrite (send_turn_acknowledged s q cmd p load Hq Hp Hload).
        cbn. rewrite sent_app. cbn. done.
      * rewrite (send_turn_undecodable s q cmd p load Hq Hp Hload).
        cbn. rewrite sent_app. cbn. done.
    + rewrite (send_turn_no_Raw s q cmd p Hq Hp). cbn. rewrite sent_app. done.
  - rewrite (send_turn_no_reply s q cmd Hq). cbn. rewrite sent_app. done.
Qed.

(** What the loop does around a turn that ends normally: the turn is the
    whole of a one-turn run, the loop goes on from the state it leaves, and
    the turn after it takes the command then rightmost in the queue. *)
Lemma _send_command_loop_after_turn answer s s1 :
  _running s = true → send_turn answer s = (Ok tt, s1) →
  _send_command_loop [answer] s = (Ok tt, s1)
  ∧ (∀ later, _send_command_loop (answer :: later) s = _send_command_loop later s1)
  ∧ (∀ next q' answer', _command_queue s1 = q' ++ [next] →
       _command_queue (_send_command_loop [answer; answer'] s).2 = q'
       ∧ sent (effects (_send_command_loop [answer; answer'] s).2)
         = sent (effects s1) ++ [next]).
Proof.
  intros Hr Hturn.
  assert (Hr1 : _running s1 = true).
  { pose proof (send_turn_running answer s) as H. rewrite Hturn in H.
    cbn in H. congruence. }
  assert (Hloop : ∀ later,
    _send_command_loop (answer :: later) s = _send_command_loop later s1).
  { intros later. rewrite _send_command_loop_turn by done. by rewrite Hturn. }
  split_and!; [by rewrite Hloop | done |].
  intros next q' answer' Hq. rewrite Hloop, _send_command_loop_turn by done.
  destruct (send_turn_consumes s1 q' next answer' Hq) as (Hq' & Hs' & _).
  destruct (send_turn answer' s1) as [[[]|e] s2]; cbn in *; done.
Qed.

(** C4 (as amended). When no reply arrives within the 0.2 s timeout ([sr1]
    returns [None]), the turn of the sender ends normally having transmitted
    the command once, printed the "unknown" line [EXE <cmd>: unknown] (there
    is no separate timeout report) and left the command out of the queue; the
    loop goes on from that state, and its next turn transmits the command
    queued before, not the dropped one: no retry. *)
Theorem no_reply_is_reported_unknown_and_dropped
    (s : controller) (q : list string) (cmd : string)
    (later : list (option packet)) :
  _running s = true → _command_queue s = q ++ [cmd] →
  let reported :=
    Controller true q (_axis_state s)
      (effects s ++ [Sr1 "192.168.10.1" 8889 cmd 200;
                     Print ("EXE " +:+ cmd +:+ ": unknown")]) in
  send_turn None s = (Ok tt, reported)
  ∧ _send_command_loop [None] s = (Ok tt, reported)
  ∧ _send_command_loop (None :: later) s = _send_command_loop later reported
  ∧ (∀ next q' answer, q = q' ++ [next] →
       _command_queue (_send_command_loop [None; answer] s).2 = q'
       ∧ sent (effects (_send_command_loop [None; answer] s).2)
         = sent (effects s) ++ [cmd; next]).
Proof.
  intros Hr Hq. cbn zeta.
  assert (Hturn : send_turn None s =
    (Ok tt, Controller true q (_axis_state s)
              (effects s ++ [Sr1 "192.168.10.1" 8889 cmd 200;
                             Print ("EXE " +:+ cmd +:+ ": unknown")]))).
  { rewrite (send_turn_no_reply s q cmd Hq). unfold after_turn. by rewrite Hr. }
  destruct (_send_command_loop_after_turn None s _ Hr Hturn) as (H1 & H2 & H3).
  split_and!; [done | done | apply H2 |].
  intros next q' answer Hnext. destruct (H3 next q' answer Hnext) as [Hq' Hs'].
  split; [done|]. rewrite Hs'. cbn [effects]. rewrite sent_app, <- app_assoc. done.
Qed.

Lemma no_reply_is_reported_unknown_and_dropped_witness :
  let s := set_command_queue ["land"; "takeoff"] init in
  (_running s = true ∧ _command_queue s = ["land"] ++ ["takeoff"])
  ∧ _send_command_loop [None] s =
      (Ok tt, Controller true ["land"] (_axis_state init)
                [Sr1 "192.168.10.1" 8889 "takeoff" 200;
                 Print "EXE takeoff: unknown"])
  ∧ sent (effects (_send_command_loop [None; None] s).2) = ["takeoff"; "land"].
Proof.
  intros s.
  assert (Hr : _running s = true) by reflexivity.
  assert (Hq : _command_queue s = ["land"] ++ ["takeoff"]) by reflexivity.
  split; [by split|].
  pose proof (no_reply_is_reported_unknown_and_dropped s ["land"] "takeoff" [None]
                Hr Hq) as (_ & Hone & _ & Hnext).
  split; [exact Hone|]. exact (proj2 (Hnext "land" [] None eq_refl)).
Defined.

(** C4 (counterexample). With "takeoff" queued and no reply, the one line the
    turn prints is the line of the "unknown" outcome: the timeout is not
    reported as an outcome of its own. *)
Lemma no_reply_report_is_the_unknown_line :
  printed (effects (send_turn None (set_command_queue ["takeoff"] init)).2)
  = [unknown_line "takeoff"]
  ∧ unknown_line "takeoff" = "EXE takeoff: unknown".
Proof. split; reflexivity. Qed.

(** C10. When the reply has no [Raw] layer, [answer[Raw]] raises [IndexError],
    which the handler of the empty queue catches: the turn ends normally
    with the command transmitted and removed, no line printed for it
    (neither the reply nor "unknown") and a sleep of 0.5 s; the loop goes on
    from that state and its next turn transmits the next command. *)
Theorem reply_without_Raw_backs_off
    (s : controller) (q : list string) (cmd : string) (p : packet)
    (later : list (option packet)) :
  _running s = true → _command_queue s = q ++ [cmd] → getlayer_Raw p = None →
  let backed_off :=
    Controller true q (_axis_state s)
      (effects s ++ [Sr1 "192.168.10.1" 8889 cmd 200; Sleep 500]) in
  send_turn (Some p) s = (Ok tt, backed_off)
  ∧ _send_command_loop [Some p] s = (Ok tt, backed_off)
  ∧ _send_command_loop (Some p :: later) s = _send_command_loop later backed_off
  ∧ (∀ next q' answer, q = q' ++ [next] →
       _command_queue (_send_command_loop [Some p; answer] s).2 = q'
       ∧ sent (effects (_send_command_loop [Some p; answer] s).2)
         = sent (effects s) ++ [cmd; next]).
Proof.
  intros Hr Hq Hp. cbn zeta.
  assert (Hturn : send_turn (Some p) s =
    (Ok tt, Controller true q (_axis_state s)
              (effects s ++ [Sr1 "192.168.10.1" 8889 cmd 200; Sleep 500]))).
  { rewrite (send_turn_no_Raw s q cmd p Hq Hp). unfold after_turn. by rewrite Hr. }
  destruct (_send_command_loop_after_turn (Some p) s _ Hr Hturn) as (H1 & H2 & H3).
  split_and!; [done | done | apply H2 |].
  intros next q' answer Hnext. destruct (H3 next q' answer Hnext) as [Hq' Hs'].
  split; [done|]. rewrite Hs'. cbn [effects]. rewrite sent_app, <- app_assoc. done.
Qed.

Lemma reply_without_Raw_backs_off_witness :
  let s := set_command_queue ["land"; "takeoff"] init in
  (_running s = true ∧ _command_queue s = ["land"] ++ ["takeoff"]
   ∧ getlayer_Raw [IP; ICMP] = None)
  ∧ _send_command_loop [Some [IP; ICMP]] s =
      (Ok tt, Controller true ["land"] (_axis_state init)
                [Sr1 "192.168.10.1" 8889 "takeoff" 200; Sleep 500])
  ∧ sent (effects (_send_command_loop [Some [IP; ICMP]; None] s).2)
    = ["takeoff"; "land"].
Proof.
  intros s.
  assert (Hr : _running s = true) by reflexivity.
  assert (Hq : _command_queue s = ["land"] ++ ["takeoff"]) by reflexivity.
  assert (Hp : getlayer_Raw [IP; ICMP] = None) by reflexivity.
  split; [by split_and!|].
  pose proof (reply_without_Raw_backs_off s ["land"] "takeoff" [IP; ICMP] [None]
                Hr Hq Hp) as (_ & Hone & _ & Hnext).
  split; [exact Hone|]. exact (proj2 (Hnext "land" [] None eq_refl)).
Defined.

(** ** Order of transmission *)

(** A queue drained under timeouts is transmitted from its right end, the
    end [append] writes to: last in, first out. *)
Lemma _send_command_loop_lifo (cmds : list string) :
  ∀ s, _running s = true → _command_queue s = cmds →
  let s' := (_send_command_loop (replicate (length cmds) None) s).2 in
  sent (effects s') = sent (effects s) ++ rev cmds ∧ _command_queue s' = [].
Proof.
  induction cmds as [|cmd q IH] using rev_ind; intros s Hr Hq; cbn zeta.
  - cbn. by rewrite app_nil_r.
  - rewrite length_app, Nat.add_comm. cbn [length Nat.add replicate].
    rewrite _send_command_loop_turn, (send_turn_no_reply s q cmd Hq) by done.
    destruct (IH (after_turn q [transmission cmd; Print (unknown_line cmd)] s))
      as [Hsent Hqueue]; [done..|].
    rewrite Hsent, Hqueue. split; [|done].
    cbn [after_turn effects]. rewrite sent_app, rev_unit, <- app_assoc. reflexivity.
Qed.

(** C1 (the code at the failing input). START then SELECT are pressed, so
    that "takeoff" is enqueued before "land"; the sender then transmits
    "land" first and "takeoff" second: [pop] takes the command appended last,
    not the earliest one. *)
Theorem commands_are_sent_last_in_first_out :
  let pressed :=
    (for_each on_event [SDL_JOYBUTTONDOWN 7; SDL_JOYBUTTONDOWN 6] init).2 in
  _command_queue pressed = ["takeoff"; "land"]
  ∧ (queue_pop pressed).1 = Ok "land"
  ∧ sent (effects (_send_command_loop [None; None] pressed).2) = ["land"; "takeoff"].
Proof. split_and!; reflexivity. Qed.

(** C2 (the code at the failing input). "takeoff" is transmitted and the
    reply carries the byte 0xff, which is not UTF-8: [decode] raises
    [UnicodeDecodeError], no handler of the loop catches it, nothing is
    printed, the loop ends with the exception and "land" stays queued. *)
Theorem undecodable_reply_kills_sender :
  let s := set_command_queue ["land"; "takeoff"] init in
  _send_command_loop [Some [IP; UDP; Raw [Byte.xff]]; None] s =
    (Raise UnicodeDecodeError,
     Controller true ["land"] (_axis_state init)
       [Sr1 "192.168.10.1" 8889 "takeoff" 200]).
Proof. reflexivity. Qed.

(** ** Indices outside the maps *)

Lemma on_event_button_out_of_range button s :
  (10 ≤ button)%nat →
  on_event (SDL_JOYBUTTONDOWN button) s = (Raise IndexError, s).
Proof.
  intros Hb. unfold on_event, try_except, tuple_getitem, mbind, M_bind.
  rewrite (lookup_ge_None_2 _button_map button) by (cbn; lia). by decide_handlers.
Qed.

Lemma on_event_axis_out_of_range axis value s :
  (6 ≤ axis)%nat → Z.abs value > _AXIS_DEAD →
  on_event (SDL_JOYAXISMOTION axis value) s = (Raise IndexError, s).
Proof.
  intros Ha Hv. unfold on_event, try_except, tuple_getitem, mbind, M_bind.
  rewrite decide_True by done.
  rewrite (lookup_ge_None_2 _axis_map axis) by (cbn; lia). by decide_handlers.
Qed.

(** A button inside the map that has no action (B, index 1) is ignored: this
    is the case [except KeyError] covers. *)
Lemma on_event_button_without_action s :
  on_event (SDL_JOYBUTTONDOWN 1) s = (Ok tt, s).
Proof. reflexivity. Qed.

Lemma _receive_command_loop_raise event rest later s e s' :
  _running s = true → on_event event s = (Raise e, s') →
  _receive_command_loop ((event :: rest) :: later) s = (Raise e, s').
Proof.
  intros Hr Hev. cbn [_receive_command_loop for_each].
  unfold get_running, mbind, M_bind. by rewrite Hr, Hev.
Qed.

(** C3 (the code at the failing input). A button-down event with index 10,
    or an axis motion with index 6 beyond the dead zone, raises [IndexError]
    out of the dispatch loop: the START press that follows in the same poll
    is never handled and the dispatcher thread is dead. *)
Theorem out_of_range_index_kills_dispatcher :
  _receive_command_loop [[SDL_JOYBUTTONDOWN 10; SDL_JOYBUTTONDOWN 7]] init
    = (Raise IndexError, init)
  ∧ _receive_command_loop [[SDL_JOYAXISMOTION 6 32767; SDL_JOYBUTTONDOWN 7]] init
    = (Raise IndexError, init)
  ∧ receiver (execute [move_receiver [SDL_JOYBUTTONDOWN 10]; move_receiver []] started)
    = receiver_died IndexError.
Proof. split_and!; reflexivity. Qed.

(** ** Shutdown *)

Lemma shutdown_leaves_only_land p :
  main p = main_clear →
  _command_queue (self (step_main (step_main p))) = ["land"]
  ∧ main (step_main (step_main p)) = main_join.
Proof. intros Hm. unfold step_main. rewrite Hm. cbn. done. Qed.

Lemma step_after_interrupt m p :
  _running (self p) = false → ¬ sender_passed_test p →
  _running (self (step m p)) = false
  ∧ ¬ sender_passed_test (step m p)
  ∧ sent (effects (self (step m p))) = sent (effects (self p)).
Proof.
  unfold sender_passed_test. intros Hr Hs. destruct m as [|answer|poll]; cbn [step].
  - destruct (call0_frame land_m (self p)) as [[Hrun Hsent] _]. cbn [call0] in *.
    unfold step_main. repeat case_match; cbn; by rewrite ?Hrun, ?Hsent.
  - unfold step_sender. destruct (sender p) eqn:Hpc; cbn; by rewrite ?Hr, ?Hpc.
  - unfold step_receiver.
    destruct (receiver p) as [|[|event rest]| |]; cbn; try done.
    destruct (on_event_frame event (self p)) as [[Hrun Hsent] _].
    destruct (on_event event (self p)) as [[[]|e] s']; cbn in *;
      by rewrite Hrun, Hsent.
Qed.

(** Once [_running] is cleared while the sender is anywhere but between its
    test and its [pop], nothing is transmitted any more, whatever the
    schedule and whatever is queued. *)
Lemma nothing_sent_after_interrupt schedule :
  ∀ p, _running (self p) = false → ¬ sender_passed_test p →
  sent (effects (self (execute schedule p))) = sent (effects (self p)).
Proof.
  induction schedule as [|m schedule IH]; intros p Hr Hs; [done|].
  destruct (step_after_interrupt m p Hr Hs) as (Hr' & Hs' & Hsent).
  change (execute (m :: schedule) p) with (execute schedule (step m p)).
  by rewrite IH.
Qed.

(** The one interleaving that does transmit "land": the sender has passed
    its test when the interrupt arrives and pops after the main thread has
    enqueued. *)
Lemma landing_sent_when_sender_passed_test :
  sent (effects (self (execute [move_sender None; move_main; move_main; move_main;
                            move_sender None; move_sender None;
                            move_receiver []; move_main] started)))
  = ["land"].
Proof. reflexivity. Qed.

(** C7 (the code at the failing input). The interrupt arrives while the
    sender is at the test of its loop. The main thread clears [_running],
    clears the queue and enqueues "land", which leaves exactly "land" queued;
    the sender then reads [_running = False] and returns, and the process
    exits with "land" still queued and nothing transmitted. The same ending
    after the sender died on an undecodable reply. *)
Theorem landing_is_queued_but_never_sent :
  let final :=
    execute [move_main; move_main; move_main; move_sender None; move_receiver [];
         move_main] started in
  let final_after_error :=
    execute [move_receiver [SDL_JOYBUTTONDOWN 7]; move_receiver [];
         move_sender None; move_sender (Some [IP; UDP; Raw [Byte.xff]]);
         move_main; move_main; move_main;
         move_receiver []; move_receiver []; move_main] started in
  (main final = main_exit
   ∧ sender final = sender_returned
   ∧ _command_queue (self final) = ["land"]
   ∧ sent (effects (self final)) = [])
  ∧ (main final_after_error = main_exit
     ∧ sender final_after_error = sender_died UnicodeDecodeError
     ∧ _command_queue (self final_after_error) = ["land"]
     ∧ sent (effects (self final_after_error)) = ["takeoff"]).
Proof. split; split_and!; reflexivity. Qed.

(** * Further properties of src/joy.py *)

(** ** Buttons *)

Lemma on_event_A s :
  on_event (SDL_JOYBUTTONDOWN 0) s = (Ok tt, set_command_queue ["emergency"] s).
Proof. reflexivity. Qed.

(** X1. Pressing A (button 0) leaves exactly "emergency" in the queue,
    whatever was queued before, and prints nothing. When the sender takes a
    turn in the state the press leaves, before the dispatcher handles
    another event, that turn transmits "emergency" and leaves the queue
    empty, whatever the network answers. *)
Theorem emergency_preempts_queue (s : controller) (answer : option packet) :
  let pressed := (on_event (SDL_JOYBUTTONDOWN 0) s).2 in
  let turned := (send_turn answer pressed).2 in
  _command_queue pressed = ["emergency"]
  ∧ effects pressed = effects s
  ∧ sent (effects turned) = sent (effects s) ++ ["emergency"]
  ∧ _command_queue turned = [].
Proof.
  cbn zeta. rewrite on_event_A. cbn [snd].
  destruct (send_turn_consumes (set_command_queue ["emergency"] s) [] "emergency" answer)
    as (Hq & Hs & _); [done|].
  by rewrite Hq, Hs.
Qed.

(** X2. SELECT (button 6), START (button 7) and Y (button 3) append "land",
    "takeoff" and "command" at the right end of the queue and print their
    line; what was queued stays queued, in order, and the axis values are
    not touched. The land of SELECT is not forced. *)
Theorem action_buttons_keep_queue (s : controller) :
  on_event (SDL_JOYBUTTONDOWN 6) s =
    (Ok tt, Controller (_running s) (_command_queue s ++ ["land"]) (_axis_state s)
              (effects s ++ [Print "Pressed Land button"]))
  ∧ on_event (SDL_JOYBUTTONDOWN 7) s =
    (Ok tt, Controller (_running s) (_command_queue s ++ ["takeoff"]) (_axis_state s)
              (effects s ++ [Print "Pressed Takeoff button"]))
  ∧ on_event (SDL_JOYBUTTONDOWN 3) s =
    (Ok tt, Controller (_running s) (_command_queue s ++ ["command"]) (_axis_state s)
              (effects s ++ [Print "Pressed Command button"])).
Proof. split_and!; reflexivity. Qed.

(** X3. The controls that are in the maps but have no entry in [_event_map]
    (buttons B, X, LB, RB, JL, JR; the triggers LT and RT, at any value)
    change nothing and raise nothing: the [KeyError] of the lookup is
    swallowed. *)
Theorem controls_without_action_are_ignored (s : controller) (value : Z) :
  Forall (λ button, on_event (SDL_JOYBUTTONDOWN button) s = (Ok tt, s))
    [1; 2; 4; 5; 8; 9]%nat
  ∧ Forall (λ axis, on_event (SDL_JOYAXISMOTION axis value) s = (Ok tt, s))
      [2; 5]%nat.
Proof.
  split; [repeat constructor|].
  unfold on_event, try_except.
  destruct (decide (Z.abs value > _AXIS_DEAD)) as [Hv|Hv]; repeat constructor.
Qed.

(** ** Events inside the maps never end the dispatcher *)

Lemma _dispatch_axis_update_at_worst_KeyError s :
  at_worst_KeyError (_dispatch_axis_update s).
Proof.
  unfold at_worst_KeyError, _dispatch_axis_update. unfold_M.
  repeat (destruct (_axis_state s !! _); cbn; [|by right]). by left.
Qed.

Lemma set_axis_at_worst_KeyError key invert raw s :
  Sint16 raw → at_worst_KeyError (set_axis key invert raw s).
Proof.
  intros Hraw. unfold set_axis, lift, mbind, M_bind.
  rewrite (int_truediv_sint16 raw Hraw).
  unfold axis_get, dict_getitem.
  destruct (_axis_state s !! key) as [cur|]; [|by right].
  cbn [mret M_ret]. destruct (decide _); [|by left].
  unfold axis_set. apply _dispatch_axis_update_at_worst_KeyError.
Qed.

Lemma try_except_KeyError body s :
  at_worst_KeyError (body s) → (try_except body KeyError (mret tt) s).1 = Ok tt.
Proof.
  unfold at_worst_KeyError, try_except. destruct (body s) as [[[]|e] s']; cbn.
  - done.
  - intros [H|H]; [done|]. injection H as ->. by rewrite decide_True.
Qed.

Lemma stick_body a value s :
  (name ← tuple_getitem _axis_map (hardware_axis a);
   f ← dict_getitem _event_map name;
   call1 f value) s
  = set_axis (key a) (inverted a) value s.
Proof. destruct a; reflexivity. Qed.

Lemma trigger_body axis value s :
  axis ∈ [2; 5]%nat →
  (name ← tuple_getitem _axis_map axis;
   f ← dict_getitem _event_map name;
   call1 f value) s
  = (Raise KeyError, s).
Proof.
  intros Ha. repeat (apply elem_of_cons in Ha as [->|Ha]; [reflexivity|]).
  by apply elem_of_nil in Ha.
Qed.

Lemma on_event_in_range ev s :
  in_range ev → hardware_event ev → (on_event ev s).1 = Ok tt.
Proof.
  intros Hin Hhw. unfold on_event. apply try_except_KeyError.
  destruct ev as [button | axis value |]; [| |by left].
  - cbn in Hin. unfold at_worst_KeyError.
    do 10 (destruct button as [|button]; [vm_compute; auto|]).
    cbn in Hin. lia.
  - cbn in Hin, Hhw. destruct (decide _); [|by left].
    destruct axis as [|[|[|[|[|[|axis]]]]]]; [.. | cbn in Hin; lia].
    + rewrite (stick_body Roll). by apply set_axis_at_worst_KeyError.
    + rewrite (stick_body Pitch). by apply set_axis_at_worst_KeyError.
    + rewrite (trigger_body 2) by set_solver. by right.
    + rewrite (stick_body Yaw). by apply set_axis_at_worst_KeyError.
    + rewrite (stick_body Quota). by apply set_axis_at_worst_KeyError.
    + rewrite (trigger_body 5) by set_solver. by right.
Qed.

Lemma for_each_ok {A} (Q : A → Prop) (body : A → M unit) :
  (∀ x s, Q x → (body x s).1 = Ok tt) →
  ∀ xs s, Forall Q xs → (for_each body xs s).1 = Ok tt.
Proof.
  intros Hbody xs. induction xs as [|x xs IH]; intros s HQ; [done|].
  inversion_clear HQ as [|? ? Hx Hxs]. cbn [for_each]. unfold mbind, M_bind.
  specialize (Hbody x s Hx). destruct (body x s) as [[[]|e] s1]; cbn in *; [|done].
  by apply IH.
Qed.

(** X4. As long as every button index is below 10, every axis index below 6
    and every axis reading a signed 16-bit value, [_receive_command_loop]
    never raises, from any state: no exception leaves the dispatcher. *)
Theorem in_range_events_never_raise (polls : list (list sdl_event)) :
  ∀ s, Forall (Forall safe_event) polls → (_receive_command_loop polls s).1 = Ok tt.
Proof.
  induction polls as [|events polls IH]; intros s Hpolls; [done|].
  inversion_clear Hpolls as [|? ? Hev Hrest].
  cbn [_receive_command_loop]. unfold get_running, mbind, M_bind.
  destruct (_running s); [|done].
  pose proof (for_each_ok safe_event on_event
                (λ ev s0 H, on_event_in_range ev s0 (proj1 H) (proj2 H)) events s Hev)
    as H1.
  destruct (for_each on_event events s) as [[[]|e] s1]; cbn in *; [|done].
  by apply IH.
Qed.

Lemma in_range_events_never_raise_witness :
  let polls := [[SDL_JOYBUTTONDOWN 9; SDL_JOYAXISMOTION 5 32767];
                [SDL_JOYAXISMOTION 0 (-32768); SDL_OTHER; SDL_JOYBUTTONDOWN 0]] in
  Forall (Forall safe_event) polls
  ∧ (_receive_command_loop polls init).1 = Ok tt.
Proof.
  intros polls.
  assert (Hpolls : Forall (Forall safe_event) polls)
    by (repeat constructor; cbn; unfold Sint16; lia).
  split; [exact Hpolls|]. exact (in_range_events_never_raise polls init Hpolls).
Defined.

(** ** The sender loop *)

Lemma sent_sleep l ms : sent (l ++ [Sleep ms]) = sent l.
Proof. rewrite sent_app. cbn. apply app_nil_r. Qed.

(** X5. With nothing queued the sender only backs off: every turn sleeps
    0.5 s, nothing is transmitted or printed, and the state is otherwise
    as before. *)
Theorem idle_sender_only_sleeps (answers : list (option packet)) :
  ∀ s, _running s = true → _command_queue s = [] →
  _send_command_loop answers s =
    (Ok tt, Controller true [] (_axis_state s)
              (effects s ++ replicate (length answers) (Sleep 500))).
Proof.
  induction answers as [|answer later IH]; intros s Hr Hq.
  - cbn. rewrite app_nil_r. destruct s; cbn in *; by subst.
  - rewrite _send_command_loop_turn, (send_turn_empty answer s Hq) by done.
    rewrite IH by done. cbn. by rewrite <- app_assoc.
Qed.

Lemma idle_sender_only_sleeps_witness :
  (_running init = true ∧ _command_queue init = [])
  ∧ _send_command_loop [None; Some [IP; UDP]; None] init =
      (Ok tt, Controller true [] (_axis_state init) [Sleep 500; Sleep 500; Sleep 500]).
Proof.
  split; [by split|].
  exact (idle_sender_only_sleeps [None; Some [IP; UDP]; None] init eq_refl eq_refl).
Defined.

Lemma utf8_valid_ascii (bs : list N) :
  Forall (λ b, (b ≤ 127)%N) bs → utf8_valid bs = true.
Proof.
  induction 1 as [|b bs Hb _ IH]; [done|].
  cbn [utf8_valid]. by rewrite (proj2 (N.leb_le b 127) Hb).
Qed.

(** X6. When the reply carries an ASCII text in its [Raw] layer, the turn of
    the sender ends normally having transmitted the command once, printed
    [EXE <cmd>: <text>] with the text unchanged and removed the command from
    the queue; the loop goes on from that state and its next turn transmits
    the next command. *)
Theorem ascii_reply_is_reported_verbatim
    (s : controller) (q : list string) (cmd text : string) (p : packet)
    (later : list (option packet)) :
  _running s = true → _command_queue s = q ++ [cmd] →
  getlayer_Raw p = Some (list_byte_of_string text) → ascii_text text →
  let acknowledged :=
    Controller true q (_axis_state s)
      (effects s ++ [Sr1 "192.168.10.1" 8889 cmd 200;
                     Print ("EXE " +:+ cmd +:+ ": " +:+ text)]) in
  send_turn (Some p) s = (Ok tt, acknowledged)
  ∧ _send_command_loop [Some p] s = (Ok tt, acknowledged)
  ∧ _send_command_loop (Some p :: later) s = _send_command_loop later acknowledged
  ∧ (∀ next q' answer, q = q' ++ [next] →
       _command_queue (_send_command_loop [Some p; answer] s).2 = q'
       ∧ sent (effects (_send_command_loop [Some p; answer] s).2)
         = sent (effects s) ++ [cmd; next]).
Proof.
  intros Hr Hq Hp Htext. cbn zeta.
  assert (Hturn : send_turn (Some p) s =
    (Ok tt, Controller true q (_axis_state s)
              (effects s ++ [Sr1 "192.168.10.1" 8889 cmd 200;
                             Print ("EXE " +:+ cmd +:+ ": " +:+ text)]))).
  { rewrite (send_turn_acknowledged s q cmd p _ Hq Hp).
    - rewrite string_of_list_byte_of_string. unfold after_turn. by rewrite Hr.
    - apply utf8_valid_ascii. unfold ascii_text in Htext.
      by apply List.Forall_map. }
  destruct (_send_command_loop_after_turn (Some p) s _ Hr Hturn) as (H1 & H2 & H3).
  split_and!; [done | done | apply H2 |].
  intros next q' answer Hnext. destruct (H3 next q' answer Hnext) as [Hq' Hs'].
  split; [done|]. rewrite Hs'. cbn [effects]. rewrite sent_app, <- app_assoc. done.
Qed.

Lemma ascii_reply_is_reported_verbatim_witness :
  let s := set_command_queue ["land"; "takeoff"] init in
  let p := [IP; UDP; Raw (list_byte_of_string "ok")] in
  (_running s = true ∧ _command_queue s = ["land"] ++ ["takeoff"]
   ∧ getlayer_Raw p = Some (list_byte_of_string "ok") ∧ ascii_text "ok")
  ∧ _send_command_loop [Some p] s =
      (Ok tt, Controller true ["land"] (_axis_state init)
                [Sr1 "192.168.10.1" 8889 "takeoff" 200; Print "EXE takeoff: ok"])
  ∧ sent (effects (_send_command_loop [Some p; None] s).2) = ["takeoff"; "land"].
Proof.
  intros s p.
  assert (Hr : _running s = true) by reflexivity.
  assert (Hq : _command_queue s = ["land"] ++ ["takeoff"]) by reflexivity.
  assert (Hp : getlayer_Raw p = Some (list_byte_of_string "ok")) by reflexivity.
  assert (Ht : ascii_text "ok").
  { unfold ascii_text. cbn [list_byte_of_string].
    repeat (apply List.Forall_cons; [by vm_compute|]). apply List.Forall_nil. }
  split; [by split_and!|].
  pose proof (ascii_reply_is_reported_verbatim s ["land"] "takeoff" "ok" p [None]
                Hr Hq Hp Ht) as (_ & Hone & _ & Hnext).
  split; [exact Hone|]. exact (proj2 (Hnext "land" [] None eq_refl)).
Defined.

(** X7. A turn of the sender on a queue that is not empty removes exactly
    the rightmost command and hands exactly that command to [sr1], once,
    whatever the answer (none, no [Raw] layer, text, undecodable bytes); the
    command is never put back, and the axis values and [_running] are not
    touched. *)
Theorem each_turn_transmits_one_command
    (s : controller) (q : list string) (cmd : string) (answer : option packet) :
  _command_queue s = q ++ [cmd] →
  _command_queue (send_turn answer s).2 = q
  ∧ sent (effects (send_turn answer s).2) = sent (effects s) ++ [cmd]
  ∧ _axis_state (send_turn answer s).2 = _axis_state s
  ∧ _running (send_turn answer s).2 = _running s.
Proof.
  intros Hq.
  destruct answer as [[|layer below]|]; [| |].
  - rewrite (send_turn_no_Raw s q cmd [] Hq eq_refl). cbn. by rewrite sent_app.
  - destruct (getlayer_Raw (layer :: below)) as [load|] eqn:Hp.
    + destruct (utf8_valid (map Byte.to_N load)) eqn:Hload.
      * rewrite (send_turn_acknowledged s q cmd _ load Hq Hp Hload).
        cbn. by rewrite sent_app.
      * rewrite (send_turn_undecodable s q cmd _ load Hq Hp Hload).
        cbn. by rewrite sent_app.
    + rewrite (send_turn_no_Raw s q cmd _ Hq Hp). cbn. by rewrite sent_app.
  - rewrite (send_turn_no_reply s q cmd Hq). cbn. by rewrite sent_app.
Qed.

Lemma each_turn_transmits_one_command_witness :
  let s := set_command_queue ["land"; "takeoff"] init in
  let answer := Some [IP; UDP; Raw [Byte.xff]] in
  _command_queue s = ["land"] ++ ["takeoff"]
  ∧ (_command_queue (send_turn answer s).2 = ["land"]
     ∧ sent (effects (send_turn answer s).2) = sent (effects s) ++ ["takeoff"]
     ∧ _axis_state (send_turn answer s).2 = _axis_state s
     ∧ _running (send_turn answer s).2 = _running s).
Proof.
  intros s answer.
  assert (Hq : _command_queue s = ["land"] ++ ["takeoff"]) by reflexivity.
  split; [exact Hq|].
  exact (each_turn_transmits_one_command s ["land"] "takeoff" answer Hq).
Defined.

Lemma send_turn_survives answer s :
  survivable answer → (send_turn answer s).1 = Ok tt.
Proof.
  intros Ha. destruct (_command_queue s) as [|c q0 _] eqn:Hq0 using rev_ind.
  - by rewrite (send_turn_empty answer s Hq0).
  - destruct answer as [p|].
    + cbn in Ha. destruct (getlayer_Raw p) as [load|] eqn:Hp.
      * by rewrite (send_turn_acknowledged s q0 c p load Hq0 Hp Ha).
      * by rewrite (send_turn_no_Raw s q0 c p Hq0 Hp).
    + by rewrite (send_turn_no_reply s q0 c Hq0).
Qed.

(** X8. A queue of n commands, drained by n turns whose answers the sender
    outlives (no reply, a reply without [Raw] layer, or a UTF-8 reply), is
    transmitted from its right end to its left end: the transmissions are
    the queue reversed, the loop does not raise and the queue ends empty. *)
Theorem queue_is_drained_last_in_first_out (cmds : list string) :
  ∀ answers s, _running s = true → _command_queue s = cmds →
  length answers = length cmds → Forall survivable answers →
  let r := _send_command_loop answers s in
  r.1 = Ok tt ∧ sent (effects r.2) = sent (effects s) ++ rev cmds
  ∧ _command_queue r.2 = [].
Proof.
  induction cmds as [|cmd q IH] using rev_ind; intros answers s Hr Hq Hlen Hans;
    cbn zeta.
  - destruct answers; [|done]. cbn. by rewrite app_nil_r.
  - rewrite length_app, Nat.add_comm in Hlen. cbn in Hlen.
    destruct answers as [|answer later]; [done|].
    inversion_clear Hans as [|? ? Ha Hlater].
    rewrite _send_command_loop_turn by done.
    pose proof (send_turn_survives answer s Ha) as Hok.
    destruct (send_turn_consumes s q cmd answer Hq) as (Hq' & Hs' & _ & Hr').
    destruct (send_turn answer s) as [[[]|e] s1]; cbn in *; [|done].
    destruct (IH later s1) as (H1 & H2 & H3); [congruence | done | lia | done |].
    rewrite H1, H2, H3, Hs', rev_unit, <- app_assoc. done.
Qed.

Lemma queue_is_drained_last_in_first_out_witness :
  let s := set_command_queue ["takeoff"; "rc 49 0 0 0"; "land"] init in
  let answers := [None; Some [IP; ICMP]; Some [IP; UDP; Raw (list_byte_of_string "ok")]] in
  (_running s = true ∧ length answers = 3%nat ∧ Forall survivable answers)
  ∧ (_send_command_loop answers s).1 = Ok tt
  ∧ sent (effects (_send_command_loop answers s).2)
    = ["land"; "rc 49 0 0 0"; "takeoff"]
  ∧ _command_queue (_send_command_loop answers s).2 = [].
Proof.
  intros s answers.
  assert (Hr : _running s = true) by reflexivity.
  assert (Hlen : length answers = 3%nat) by reflexivity.
  assert (Hans : Forall survivable answers) by (repeat constructor).
  split; [by split_and!|].
  exact (queue_is_drained_last_in_first_out ["takeoff"; "rc 49 0 0 0"; "land"]
           answers s Hr eq_refl Hlen Hans).
Defined.

(** ** How the handlers end *)

(** The two ends of [_dispatch_axis_update]. *)
Lemma _dispatch_axis_update_cases s :
  (_dispatch_axis_update s).2 = s
  ∨ ∃ r p q y,
      _axis_state s !! "roll" = Some r ∧ _axis_state s !! "pitch" = Some p
      ∧ _axis_state s !! "quota" = Some q ∧ _axis_state s !! "yaw" = Some y
      ∧ (_dispatch_axis_update s).2 =
          set_command_queue (_command_queue s ++ [rc_command r p q y]) s.
Proof.
  unfold _dispatch_axis_update. unfold_M.
  destruct (_axis_state s !! "roll") as [r|]; [|by left].
  destruct (_axis_state s !! "pitch") as [p|]; [|by left].
  destruct (_axis_state s !! "quota") as [q|]; [|by left].
  destruct (_axis_state s !! "yaw") as [y|]; [|by left].
  right. by exists r, p, q, y.
Qed.

(** The two ends of a setter: nothing happened, or the value was stored over
    an existing, different one and [_dispatch_axis_update] ran. *)
Lemma set_axis_cases key invert raw s :
  (set_axis key invert raw s).2 = s
  ∨ ∃ v cur,
      int_truediv (raw * 100) _AXIS_MAX_VAL = Ok v
      ∧ _axis_state s !! key = Some cur
      ∧ cur ≠ (if invert then - v else v)
      ∧ (set_axis key invert raw s).2 =
          (_dispatch_axis_update
             (set_axis_state (<[key := if invert then - v else v]> (_axis_state s)) s)).2.
Proof.
  unfold set_axis. unfold_M.
  destruct (int_truediv _ _) as [v|e] eqn:Hv; cbn; [|by left].
  destruct (_axis_state s !! key) as [cur|] eqn:Hcur; cbn; [|by left].
  destruct (decide _) as [Hne|]; cbn; [|by left].
  right. by exists v, cur.
Qed.

Lemma call1_cases f value s :
  (∃ key invert, call1 f value s = set_axis key invert value s)
  ∨ (∃ force, call1 f value s = _land force s)
  ∨ (call1 f value s).2 = s.
Proof.
  destruct f; cbn [call1];
    rewrite ?_set_roll_eq, ?_set_pitch_eq, ?_set_yaw_eq, ?_set_quota_eq; eauto.
Qed.

Lemma call0_axis_state f s : _axis_state (call0 f s).2 = _axis_state s.
Proof. apply call0_frame. Qed.

Lemma _land_frame force s :
  _running (_land force s).2 = _running s
  ∧ _axis_state (_land force s).2 = _axis_state s.
Proof. unfold _land. unfold_M. by destruct force. Qed.

(** A relation between the states before and after a call that holds of
    every handler holds of every event. *)
Section Lift.
Variable R : controller → controller → Prop.
Variable V : Z → Prop.
Hypothesis R_refl : ∀ s, R s s.
Hypothesis call0_R : ∀ f s, R s (call0 f s).2.
Hypothesis call1_R :
  ∀ f value s, Z.abs value > _AXIS_DEAD → V value → R s (call1 f value s).2.

Lemma on_event_lift ev s :
  match ev with SDL_JOYAXISMOTION _ value => V value | _ => True end →
  R s (on_event ev s).2.
Proof.
  intros Hev. unfold on_event. unfold_M.
  destruct ev as [button | axis value |]; [| |by cbn].
  - destruct (_button_map !! button) as [name|]; [|by cbn].
    destruct (_event_map !! name) as [f|]; [|by cbn].
    pose proof (call0_R f s) as H.
    destruct (call0 f s) as [[[]|e] s']; cbn in *; [done|].
    by destruct (decide _).
  - destruct (decide _) as [Hdead|]; [|by cbn].
    destruct (_axis_map !! axis) as [name|]; [|by cbn].
    destruct (_event_map !! name) as [f|]; [|by cbn].
    pose proof (call1_R f value s Hdead Hev) as H.
    destruct (call1 f value s) as [[[]|e] s']; cbn in *; [done|].
    by destruct (decide _).
Qed.
End Lift.

(** ** The keys of the axis dictionary *)

Lemma set_axis_dom key invert raw s :
  dom (_axis_state (set_axis key invert raw s).2) = dom (_axis_state s).
Proof.
  destruct (set_axis_cases key invert raw s) as [->|(v & cur & _ & Hcur & _ & ->)];
    [done|].
  destruct (_dispatch_axis_update_frame
              (set_axis_state (<[key := if invert then - v else v]> (_axis_state s)) s))
    as (_ & -> & _).
  cbn. apply dom_insert_lookup_L. by eexists.
Qed.

Lemma on_event_dom ev s : dom (_axis_state (on_event ev s).2) = dom (_axis_state s).
Proof.
  apply (on_event_lift (λ s s', dom (_axis_state s') = dom (_axis_state s)) (λ _, True));
    [done | | | by destruct ev].
  - intros f t. by rewrite call0_axis_state.
  - intros f value t _ _.
    destruct (call1_cases f value t) as [(k & i & ->)|[(force & ->)| ->]];
      [apply set_axis_dom | | done].
    by destruct (_land_frame force t) as [_ ->].
Qed.

(** X9. The dispatcher never adds or removes a key of the axis dictionary,
    whatever the events (in range or not, raising or not) and the state it
    starts from; started by [__init__], the dictionary always has its four
    keys roll, pitch, quota and yaw, so that no lookup of a setter or of
    [_dispatch_axis_update] can fail. *)
Theorem axis_keys_never_change (polls : list (list sdl_event)) (s : controller) :
  dom (_axis_state (_receive_command_loop polls s).2) = dom (_axis_state s)
  ∧ Forall (λ k, is_Some (_axis_state (_receive_command_loop polls init).2 !! k))
      ["roll"; "pitch"; "quota"; "yaw"].
Proof.
  assert (Hdom : ∀ s0,
    dom (_axis_state (_receive_command_loop polls s0).2) = dom (_axis_state s0)).
  { intros s0.
    apply (_receive_command_loop_invariant
             (λ t, dom (_axis_state t) = dom (_axis_state s0)) (λ _, True)).
    - intros ev t _ Ht. by rewrite on_event_dom.
    - apply List.Forall_forall. intros events _. by apply List.Forall_forall.
    - done. }
  split; [apply Hdom|].
  repeat (apply List.Forall_cons; [apply elem_of_dom; rewrite Hdom; by vm_compute|]).
  apply List.Forall_nil.
Qed.

(** ** A deflected axis stays deflected *)

Lemma percent_magnitude raw :
  Sint16 raw → Z.abs raw > _AXIS_DEAD → 7 ≤ Z.abs (percent raw) ≤ 100.
Proof.
  intros Hraw Hdead. pose proof (percent_bounds raw Hraw) as Hb.
  split; [|lia]. unfold percent, _AXIS_MAX_VAL, _AXIS_DEAD in *.
  rewrite <- (Z.quot_abs (raw * 100) 32767) by lia.
  rewrite Z.abs_mul. change (Z.abs 100) with 100. change (Z.abs 32767) with 32767.
  assert (Hmin : 250100 `quot` 32767 = 7) by reflexivity.
  pose proof (Z.quot_le_mono 250100 (Z.abs raw * 100) 32767) as Hl.
  lia.
Qed.

Lemma set_axis_kept_or_deflected key invert raw s k v :
  Sint16 raw → Z.abs raw > _AXIS_DEAD → _axis_state s !! k = Some v →
  ∃ v', _axis_state (set_axis key invert raw s).2 !! k = Some v'
        ∧ kept_or_deflected v v'.
Proof.
  intros Hraw Hdead Hk.
  destruct (set_axis_cases key invert raw s) as [->|(w & cur & Hw & Hcur & _ & ->)];
    [exists v; split; [done | by left]|].
  destruct (_dispatch_axis_update_frame
              (set_axis_state (<[key := if invert then - w else w]> (_axis_state s)) s))
    as (_ & -> & _).
  cbn. rewrite (int_truediv_sint16 raw Hraw) in Hw. injection Hw as <-.
  pose proof (percent_magnitude raw Hraw Hdead) as Hm.
  destruct (decide (key = k)) as [->|Hne].
  - rewrite lookup_insert_eq. eexists; split; [done|]. right. destruct invert; lia.
  - rewrite lookup_insert_ne by done. exists v; split; [done | by left].
Qed.

Lemma on_event_kept_or_deflected ev s k v :
  hardware_event ev → _axis_state s !! k = Some v →
  ∃ v', _axis_state (on_event ev s).2 !! k = Some v' ∧ kept_or_deflected v v'.
Proof.
  intros Hev. revert k v.
  apply (on_event_lift
           (λ s s', ∀ k v, _axis_state s !! k = Some v →
                    ∃ v', _axis_state s' !! k = Some v' ∧ kept_or_deflected v v')
           Sint16).
  - intros t k v Hk. exists v; split; [done | by left].
  - intros f t k v Hk. rewrite call0_axis_state. exists v; split; [done | by left].
  - intros f value t Hdead Hval k v Hk.
    destruct (call1_cases f value t) as [(key & i & ->)|[(force & ->)| ->]].
    + by apply set_axis_kept_or_deflected.
    + exists v; split; [|by left]. by destruct (_land_frame force t) as [_ ->].
    + exists v; split; [done | by left].
  - by destruct ev.
Qed.

(** X10. No event sets a stored axis value back to zero: events within the
    dead zone are dropped and every value a stick stores has magnitude
    between 7 and 100. So an axis that holds a non-zero value keeps a
    non-zero value through any sequence of polls with 16-bit readings;
    letting the stick return to its centre does not bring the axis back
    to 0. *)
Theorem deflected_axis_never_returns_to_zero (polls : list (list sdl_event)) :
  ∀ s k v, Forall (Forall hardware_event) polls →
  _axis_state s !! k = Some v → v ≠ 0 →
  ∃ v', _axis_state (_receive_command_loop polls s).2 !! k = Some v' ∧ v' ≠ 0.
Proof.
  intros s k v Hpolls Hk Hv.
  apply (_receive_command_loop_invariant
           (λ t, ∃ v', _axis_state t !! k = Some v' ∧ v' ≠ 0) hardware_event);
    [|done|by exists v].
  intros ev t Hev (w & Hw & Hne).
  destruct (on_event_kept_or_deflected ev t k w Hev Hw) as (w' & Hw' & Hcase).
  exists w'. split; [done|]. destruct Hcase as [->|Hm]; [done | lia].
Qed.

Lemma deflected_axis_never_returns_to_zero_witness :
  let s := (on_event (SDL_JOYAXISMOTION 0 32767) init).2 in
  let polls := [[SDL_JOYAXISMOTION 0 2000; SDL_JOYAXISMOTION 0 0];
                [SDL_JOYAXISMOTION 0 (-100)]] in
  (Forall (Forall hardware_event) polls
   ∧ _axis_state s !! "roll" = Some 100 ∧ 100 ≠ 0)
  ∧ ∃ v', _axis_state (_receive_command_loop polls s).2 !! "roll" = Some v'
          ∧ v' ≠ 0.
Proof.
  intros s polls.
  assert (Hpolls : Forall (Forall hardware_event) polls)
    by (repeat constructor; unfold Sint16; lia).
  assert (Hroll : _axis_state s !! "roll" = Some 100) by reflexivity.
  assert (Hne : 100 ≠ 0) by lia.
  split; [by split_and!|].
  exact (deflected_axis_never_returns_to_zero polls s "roll" 100 Hpolls Hroll Hne).
Defined.

(** ** Only protocol commands are queued and transmitted *)

Lemma wellformed_plain cmd :
  cmd ∈ ["land"; "takeoff"; "command"; "emergency"] → wellformed_command cmd.
Proof. by left. Qed.

Lemma call0_wellformed f s :
  Forall wellformed_command (_command_queue s) →
  Forall wellformed_command (_command_queue (call0 f s).2).
Proof.
  intros Hq.
  destruct f; cbn [call0]; unfold _land, _takeoff, _emergency_land, _command;
    unfold_M; cbn; try done;
    repeat first [apply Forall_app; split | apply Forall_cons; split
                 | apply Forall_nil];
    try done; apply wellformed_plain; set_solver.
Qed.

Lemma _land_wellformed force s :
  Forall wellformed_command (_command_queue s) →
  Forall wellformed_command (_command_queue (_land force s).2).
Proof.
  intros Hq. unfold _land. unfold_M. destruct force; cbn;
    repeat first [apply Forall_app; split | apply Forall_cons; split
                 | apply Forall_nil];
    try done; apply wellformed_plain; set_solver.
Qed.

Lemma set_axis_wellformed key invert raw s :
  Sint16 raw → percentages (_axis_state s) →
  Forall wellformed_command (_command_queue s) →
  Forall wellformed_command (_command_queue (set_axis key invert raw s).2).
Proof.
  intros Hraw Hp Hq.
  destruct (set_axis_cases key invert raw s) as [->|(v & cur & Hv & _ & _ & ->)];
    [done|].
  rewrite (int_truediv_sint16 raw Hraw) in Hv. injection Hv as <-.
  pose proof (percent_bounds raw Hraw) as Hb.
  set (t := set_axis_state _ s).
  assert (Ht : percentages (_axis_state t)).
  { subst t. cbn. apply map_Forall_insert_2; [|done]. destruct invert; lia. }
  destruct (_dispatch_axis_update_cases t)
    as [->|(r & p & q & y & Hr & Hpi & Hqu & Hy & ->)]; [done|].
  cbn. apply Forall_app. split; [done|]. apply Forall_cons. split; [|done].
  right. exists r, p, q, y.
  split_and!; try done; by eapply (map_Forall_lookup_1 _ _ _ _ Ht).
Qed.

Lemma on_event_wellformed ev s :
  hardware_event ev → percentages (_axis_state s) →
  Forall wellformed_command (_command_queue s) →
  Forall wellformed_command (_command_queue (on_event ev s).2).
Proof.
  intros Hev.
  apply (on_event_lift
           (λ s s', percentages (_axis_state s) →
                    Forall wellformed_command (_command_queue s) →
                    Forall wellformed_command (_command_queue s'))
           Sint16).
  - done.
  - intros f t _. apply call0_wellformed.
  - intros f value t _ Hval Hp Hq.
    destruct (call1_cases f value t) as [(key & i & ->)|[(force & ->)| ->]]; [| |done].
    + by apply set_axis_wellformed.
    + by apply _land_wellformed.
  - by destruct ev.
Qed.

Lemma send_turn_wellformed answer s :
  Forall wellformed_command (_command_queue s) →
  Forall wellformed_command (sent (effects s)) →
  let s' := (send_turn answer s).2 in
  _axis_state s' = _axis_state s
  ∧ Forall wellformed_command (_command_queue s')
  ∧ Forall wellformed_command (sent (effects s')).
Proof.
  intros Hq Hs. cbn zeta.
  destruct (_command_queue s) as [|cmd q _] eqn:Hq0 using rev_ind.
  - rewrite (send_turn_empty answer s Hq0). cbn. rewrite sent_sleep, Hq0. done.
  - destruct (send_turn_consumes s q cmd answer Hq0) as (-> & -> & -> & _).
    apply Forall_app in Hq as [Hq Hcmd].
    split_and!; [done | done |]. apply Forall_app. done.
Qed.

Lemma step_protocol_invariant m p :
  hardware_move m → protocol_invariant p → protocol_invariant (step m p).
Proof.
  unfold protocol_invariant. intros Hm Hinv.
  pose proof Hinv as (Hp & Hq & Hs & Hr).
  destruct m as [|answer|poll]; cbn [step].
  - unfold step_main. destruct (main p); cbn [self receiver].
    + done.
    + cbn. split_and!; try done.
    + destruct (call0_frame land_m (self p)) as [[_ Hsent] Hax]. cbn [call0] in *.
      rewrite Hax, Hsent. split_and!; try done. by apply _land_wellformed.
    + by destruct (finished_sender (sender p) && finished_receiver (receiver p)).
    + done.
  - unfold step_sender. destruct (sender p); cbn [self receiver]; try done.
    all: try (by split_and!).
    destruct (send_turn_wellformed answer (self p) Hq Hs) as (Hax & Hq' & Hs').
    destruct (send_turn answer (self p)) as [[[]|e] s']; cbn in *;
      by rewrite Hax.
  - unfold step_receiver. cbn in Hm.
    destruct (receiver p) as [|[|event rest]| |] eqn:Hpc; cbn [self receiver];
      rewrite ?Hpc; try (by split_and!).
    + by destruct (_running (self p)).
    + inversion_clear Hr as [|? ? Hev Hrest].
      pose proof (on_event_percentages event (self p) Hev Hp) as Hp'.
      pose proof (on_event_wellformed event (self p) Hev Hp Hq) as Hq'.
      destruct (on_event_frame event (self p)) as [[_ Hsent] _].
      destruct (on_event event (self p)) as [[[]|e] s']; cbn in *;
        by rewrite Hsent.
Qed.

(** X11. Under every interleaving of the three threads, with any answers of
    the network and any events whose axis readings are 16-bit values, every
    payload handed to [sr1] and every command in the queue is "land",
    "takeoff", "command", "emergency" or an [rc] command with four integers
    in [-100, 100]. *)
Theorem only_protocol_commands_are_transmitted (schedule : list move) :
  Forall hardware_move schedule →
  let p := execute schedule started in
  Forall wellformed_command (sent (effects (self p)))
  ∧ Forall wellformed_command (_command_queue (self p)).
Proof.
  intros Hsched. cbn zeta.
  assert (H : protocol_invariant (execute schedule started)).
  { assert (H0 : protocol_invariant started).
    { unfold protocol_invariant. cbn. split_and!; try done. apply init_percentages. }
    revert H0. generalize started.
    induction Hsched as [|m schedule Hm _ IH]; intros p Hp; [done|].
    change (execute (m :: schedule) p) with (execute schedule (step m p)).
    by apply IH, step_protocol_invariant. }
  destruct H as (_ & Hq & Hs & _). done.
Qed.

Lemma only_protocol_commands_are_transmitted_witness :
  let schedule :=
    [move_receiver [SDL_JOYBUTTONDOWN 7; SDL_JOYAXISMOTION 1 (-32768)];
     move_receiver []; move_receiver []; move_sender None; move_sender None;
     move_main; move_main; move_main] in
  Forall hardware_move schedule
  ∧ Forall wellformed_command (sent (effects (self (execute schedule started))))
  ∧ Forall wellformed_command (_command_queue (self (execute schedule started))).
Proof.
  intros schedule.
  assert (Hsched : Forall hardware_move schedule)
    by (repeat constructor; unfold Sint16; lia).
  split; [exact Hsched|].
  exact (only_protocol_commands_are_transmitted schedule Hsched).
Defined.

(** ** The life of the three threads *)

Lemma on_event_running ev s : _running (on_event ev s).2 = _running s.
Proof. apply on_event_frame. Qed.

Lemma step_lifecycle_invariant m p :
  lifecycle_invariant p → lifecycle_invariant (step m p).
Proof.
  unfold lifecycle_invariant. intros (Hrun & Hs & Hr & Hexit).
  destruct m as [|answer|poll]; cbn [step].
  - destruct (_land_frame false (self p)) as [Hkeep _].
    unfold step_main.
    destruct (main p) eqn:Hm; [| | |
      destruct (finished_sender (sender p) && finished_receiver (receiver p)) eqn:Hfin|];
      cbn [self main sender receiver] in *; rewrite ?Hkeep, ?Hm;
      try apply andb_true_iff in Hfin; cbn; close_lifecycle.
  - pose proof (send_turn_running answer (self p)) as Hkeep.
    unfold step_sender.
    destruct (sender p) eqn:Hpc;
      [destruct (_running (self p)) eqn:Hr0
      |destruct (send_turn answer (self p)) as [[[]|e] s']| |];
      cbn [self main sender receiver fst snd] in *; rewrite ?Hkeep, ?Hpc;
      close_lifecycle.
  - unfold step_receiver.
    destruct (receiver p) as [|[|event rest]| |] eqn:Hpc;
      [destruct (_running (self p)) eqn:Hr0| |
       pose proof (on_event_running event (self p)) as Hkeep;
       destruct (on_event event (self p)) as [[[]|e] s']| |];
      cbn [self main sender receiver fst snd] in *; rewrite ?Hkeep, ?Hpc;
      close_lifecycle.
Qed.

(** X12. Under every interleaving, [_running] is true exactly while the main
    thread is in [_run_loop] (nothing ever sets it back to true); neither
    worker loop returns before the interrupt; and the main thread gets past
    its [join] only when both workers have ended, by returning or by an
    exception. *)
Theorem workers_outlive_the_run_loop (schedule : list move) :
  let p := execute schedule started in
  (_running (self p) = true ↔ main p = main_run_loop)
  ∧ (sender p = sender_returned → main p ≠ main_run_loop)
  ∧ (receiver p = receiver_returned → main p ≠ main_run_loop)
  ∧ (main p = main_exit →
       finished_sender (sender p) = true ∧ finished_receiver (receiver p) = true).
Proof.
  cbn zeta. change (lifecycle_invariant (execute schedule started)).
  assert (H0 : lifecycle_invariant started) by (by split_and!).
  revert H0. generalize started.
  induction schedule as [|m schedule IH]; intros p Hp; [done|].
  change (execute (m :: schedule) p) with (execute schedule (step m p)).
  by apply IH, step_lifecycle_invariant.
Qed.

Lemma send_turn_sends_at_most_one answer s :
  (length (sent (effects (send_turn answer s).2)) ≤ S (length (sent (effects s))))%nat.
Proof.
  destruct (_command_queue s) as [|cmd q _] eqn:Hq using rev_ind.
  - rewrite (send_turn_empty answer s Hq). cbn. rewrite sent_sleep. lia.
  - destruct (send_turn_consumes s q cmd answer Hq) as (_ & -> & _).
    rewrite length_app. cbn. lia.
Qed.

Lemma step_sender_first answer p :
  _running (self p) = false →
  _running (self (step_sender answer p)) = false
  ∧ sender (step_sender answer p) ≠ sender_turn
  ∧ (length (sent (effects (self (step_sender answer p))))
     ≤ S (length (sent (effects (self p)))))%nat.
Proof.
  intros Hr.
  pose proof (send_turn_running answer (self p)) as Hkeep.
  pose proof (send_turn_sends_at_most_one answer (self p)) as Hlen.
  unfold step_sender.
  destruct (sender p) eqn:Hpc;
    [ | destruct (send_turn answer (self p)) as [[[]|e] s'] | | ];
    cbn [self main sender receiver fst snd] in *;
    rewrite ?Hr, ?Hpc; split_and!; try done; try lia; congruence.
Qed.

Lemma step_sender_second answer p :
  _running (self p) = false → sender p ≠ sender_turn →
  finished_sender (sender (step_sender answer p)) = true
  ∧ self (step_sender answer p) = self p.
Proof.
  intros Hr Hpc. unfold step_sender.
  destruct (sender p) eqn:Hs; cbn [self main sender receiver];
    rewrite ?Hr, ?Hs; done.
Qed.

(** X13. Once [_running] is cleared, the sender thread has ended after at
    most two of its own steps, wherever it was and whatever the network
    answers, and it transmits at most one more command on the way. *)
Theorem sender_returns_within_two_steps (p : process) (a b : option packet) :
  _running (self p) = false →
  let p' := step_sender b (step_sender a p) in
  finished_sender (sender p') = true
  ∧ (length (sent (effects (self p'))) ≤ S (length (sent (effects (self p)))))%nat.
Proof.
  intros Hr. cbn zeta.
  destruct (step_sender_first a p Hr) as (Hr1 & Hpc1 & Hlen).
  destruct (step_sender_second b (step_sender a p) Hr1 Hpc1) as [Hfin ->].
  done.
Qed.

Lemma sender_returns_within_two_steps_witness :
  let p := Process (Controller false ["takeoff"; "land"] (_axis_state init) [])
             main_clear sender_turn receiver_while in
  _running (self p) = false
  ∧ finished_sender (sender (step_sender None (step_sender None p))) = true
  ∧ (length (sent (effects (self (step_sender None (step_sender None p)))))
     ≤ S (length (sent (effects (self p)))))%nat.
Proof.
  intros p.
  assert (Hr : _running (self p) = false) by reflexivity.
  split; [exact Hr|]. exact (sender_returns_within_two_steps p None None Hr).
Defined.

(** X14. The three steps the main thread takes when [KeyboardInterrupt]
    reaches [_run_loop], with no worker step in between, clear [_running],
    discard everything queued and leave exactly "land" in the queue; they
    touch no axis value and transmit nothing themselves. *)
Theorem shutdown_discards_queue_and_enqueues_land (p : process) :
  main p = main_run_loop →
  let p' := step_main (step_main (step_main p)) in
  main p' = main_join
  ∧ _running (self p') = false
  ∧ _command_queue (self p') = ["land"]
  ∧ _axis_state (self p') = _axis_state (self p)
  ∧ sent (effects (self p')) = sent (effects (self p)).
Proof.
  destruct p as [s pc snd_pc rcv_pc]. cbn [main]. intros ->.
  cbn -[sent]. unfold _land. unfold_M. cbn -[sent]. by rewrite sent_print.
Qed.

Lemma shutdown_discards_queue_and_enqueues_land_witness :
  let p := Process (Controller true ["takeoff"; "rc 49 0 0 0"] (_axis_state init) [])
             main_run_loop sender_while receiver_while in
  main p = main_run_loop
  ∧ _command_queue (self (step_main (step_main (step_main p)))) = ["land"].
Proof.
  intros p.
  assert (Hm : main p = main_run_loop) by reflexivity.
  split; [exact Hm|].
  exact (proj1 (proj2 (proj2 (shutdown_discards_queue_and_enqueues_land p Hm)))).
Defined.

(** ** [_init_joystick] *)

Lemma list_joysticks_decodable names :
  Forall decodable names →
  list_joysticks names =
    (None, map (λ name, "  - " +:+ string_of_list_byte name) names).
Proof.
  induction 1 as [|name names Hname _ IH]; [done|].
  cbn [list_joysticks map]. unfold decodable in Hname. by rewrite Hname, IH.
Qed.

(** X15. [_init_joystick] raises [RuntimeError] exactly when SDL enumerates
    no joystick, and then before printing anything; with at least one
    joystick and names that decode it prints the header and one line per
    joystick in enumeration order and returns joystick 0, however many
    there are. *)
Theorem first_joystick_is_opened (names : list (list byte)) :
  ((_init_joystick names).1 = RuntimeError ↔ names = [])
  ∧ (names = [] → (_init_joystick names).2 = [])
  ∧ (names ≠ [] → Forall decodable names →
       _init_joystick names =
         (Opened 0%nat,
          "Joysticks available:"
            :: map (λ name, "  - " +:+ string_of_list_byte name) names)).
Proof.
  split_and!.
  - destruct names as [|name rest]; [done|].
    unfold _init_joystick. cbn [length Nat.ltb Nat.leb].
    split; [|done]. by destruct (list_joysticks (name :: rest)).1.
  - by intros ->.
  - intros Hne Hdec. destruct names as [|name rest]; [done|].
    unfold _init_joystick. cbn [length Nat.ltb Nat.leb].
    by rewrite (list_joysticks_decodable _ Hdec).
Qed.

Lemma first_joystick_is_opened_witness :
  let names := [list_byte_of_string "Xbox"; list_byte_of_string "Stick"] in
  (names ≠ [] ∧ Forall decodable names)
  ∧ _init_joystick names =
      (Opened 0%nat, ["Joysticks available:"; "  - Xbox"; "  - Stick"]).
Proof.
  intros names.
  assert (Hne : names ≠ []) by done.
  assert (Hdec : Forall decodable names) by (repeat constructor).
  split; [by split|].
  exact (proj2 (proj2 (first_joystick_is_opened names)) Hne Hdec).
Defined.

Lemma workers_outlive_the_run_loop_witness :
  let schedule :=
    [move_main; move_main; move_main; move_sender None; move_receiver [];
     move_main] in
  main (execute schedule started) = main_exit
  ∧ finished_sender (sender (execute schedule started)) = true
  ∧ finished_receiver (receiver (execute schedule started)) = true.
Proof.
  intros schedule.
  assert (Hexit : main (execute schedule started) = main_exit) by reflexivity.
  split; [exact Hexit|].
  exact (proj2 (proj2 (proj2 (workers_outlive_the_run_loop schedule))) Hexit).
Defined.

(** * Properties of src/events.py *)

Section EventsProperties.
Context {W D : Type}.
Implicit Types (h : @events.callback W D) (l : @events.loop W).
Implicit Types (event_handlers : gmap Z (list (@events.callback W D))).

(** X16. [handler(t, h)] puts [h] at the end of the handlers of type [t],
    after those registered before (creating the list when [t] is new), and
    leaves the handlers of every other type as they are; the decorator form,
    calling the [append] that [handler(t)] returns, registers the same
    way. *)
Theorem handler_appends_in_order t h event_handlers :
  let registered := (events.handler t (Some h) event_handlers).2 in
  registered !! t = Some (default [] (event_handlers !! t) ++ [h])
  ∧ (∀ t', t' ≠ t → registered !! t' = event_handlers !! t')
  ∧ events.call_append t h (events.handler t None event_handlers).2 = registered.
Proof.
  cbn zeta. unfold events.handler, events.call_append. cbn [snd].
  destruct (event_handlers !! t) as [hs|] eqn:Ht; cbn [default].
  - split_and!; [| |done].
    + by rewrite lookup_alter_eq, Ht.
    + intros t' Hne. by rewrite lookup_alter_ne.
  - split_and!; [| |done].
    + by rewrite lookup_alter_eq, lookup_insert_eq.
    + intros t' Hne. by rewrite lookup_alter_ne, lookup_insert_ne.
Qed.


(** X18. When the first handler of an event returns with [keepRunning]
    false, the pump returns at once: the handlers registered after it are
    not called for this event and the events behind it stay in the SDL
    queue. This holds as well when the pump is entered with the loop already
    stopped: the first event still reaches its first handler. *)
Theorem stopping_handler_ends_pump event_handlers
    (event : @events.SDL_Event D) (rest : list events.SDL_Event) h hs l l' :
  event_handlers !! events.event_type event = Some (h :: hs) →
  h event l = (Ok tt, l') → events.keepRunning l' = false →
  events.pump event_handlers (event :: rest) l = (Ok tt, l', rest).
Proof.
  intros Hreg Hh Hstop. cbn [events.pump]. rewrite Hreg.
  cbn. by rewrite Hh, Hstop, Hstop.
Qed.

(** X19. While the loop is running, events whose type has no handler (or an
    empty list of handlers) are taken from the SDL queue and dropped: the
    pump returns with the loop unchanged and the queue empty. *)
Theorem unhandled_events_are_consumed event_handlers
    (pending : list (@events.SDL_Event D)) l :
  events.keepRunning l = true → Forall (events.unhandled event_handlers) pending →
  events.pump event_handlers pending l = (Ok tt, l, []).
Proof.
  intros Hrun Hpending. induction Hpending as [|event pending Hev _ IH]; [done|].
  cbn [events.pump]. unfold events.unhandled in Hev. rewrite Hev.
  cbn [events.dispatch]. by rewrite Hrun.
Qed.

(** X20. However [runloop] ends, by [keepRunning] turning false or by an
    exception of a handler or of [loopFunction], it has called [Mix_Quit],
    [TTF_Quit] and [SDL_Quit], in this order and once; as long as it loops
    it has called none of them. *)
Theorem runloop_quits_whenever_it_ends event_handlers loopFunction
    (arrivals : list (list (@events.SDL_Event D))) :
  ∀ pending l,
  let r := events.runloop event_handlers loopFunction arrivals pending l in
  (r.1.1.1 = events.Looping ∧ r.2 = [])
  ∨ (r.1.1.1 ≠ events.Looping ∧ r.2 = events.quits).
Proof.
  induction arrivals as [|batch later IH]; intros pending l; cbn zeta.
  - cbn [events.runloop]. destruct (events.keepRunning l); [by left | by right].
  - cbn [events.runloop]. destruct (events.keepRunning l); [|by right].
    destruct (events.pump _ _ l) as [[[[]|e] l1] rest]; [|by right].
    destruct (loopFunction l1) as [[[]|e] l2]; [|by right].
    apply IH.
Qed.

End EventsProperties.

(** Witnesses, on a world that counts the calls of a handler. *)


Lemma stopping_handler_ends_pump_witness :
  let count : events.callback :=
    λ (_ : @events.SDL_Event unit) (l : @events.loop nat),
      (Ok tt, events.Loop (S (events.world l)) (events.keepRunning l)) in
  let halt : events.callback := λ _ l, (Ok tt, events.stop l) in
  let event_handlers :=
    (events.handler 256 (Some count) (events.handler 256 (Some halt) ∅).2).2 in
  let quit := events.Event 256 tt in
  let l := events.Loop 0%nat true in
  (event_handlers !! 256 = Some [halt; count]
   ∧ halt quit l = (Ok tt, events.Loop 0%nat false)
   ∧ events.keepRunning (events.Loop 0%nat false) = false)
  ∧ events.pump event_handlers [quit; events.Event 512 tt] l
    = (Ok tt, events.Loop 0%nat false, [events.Event 512 tt]).
Proof.
  intros count halt event_handlers quit l.
  assert (Hreg : event_handlers !! events.event_type quit = Some [halt; count])
    by reflexivity.
  assert (Hh : halt quit l = (Ok tt, events.Loop 0%nat false)) by reflexivity.
  assert (Hstop : events.keepRunning (events.Loop 0%nat false) = false)
    by reflexivity.
  split; [by split_and!|].
  exact (stopping_handler_ends_pump event_handlers quit [events.Event 512 tt]
           halt [count] l _ Hreg Hh Hstop).
Defined.

Lemma unhandled_events_are_consumed_witness :
  let halt : events.callback :=
    λ (_ : @events.SDL_Event unit) (l : @events.loop nat), (Ok tt, events.stop l) in
  let event_handlers := (events.handler 256 (Some halt) ∅).2 in
  let pending := [events.Event 512 tt; events.Event 768 tt] in
  let l := events.Loop 0%nat true in
  (events.keepRunning l = true ∧ Forall (events.unhandled event_handlers) pending)
  ∧ events.pump event_handlers pending l = (Ok tt, l, []).
Proof.
  intros halt event_handlers pending l.
  assert (Hrun : events.keepRunning l = true) by reflexivity.
  assert (Hpending : Forall (events.unhandled event_handlers) pending)
    by (repeat constructor).
  split; [by split|].
  exact (unhandled_events_are_consumed event_handlers pending l Hrun Hpending).
Defined.

